(** * Katas: mastery scoring and completion tracking

    A shallow embedding of the Go program [katas] (package main):
    the [Mastery] type with its [String] method and the [mastery]
    scoring function, the [kata]/[katas] records and the [markDone]
    method with the [load]/[save] plumbing it goes through.

    The repository holds three states of [main.go].  The embedding
    follows the latest, the one that calls [mastery]; [markDone] is
    the same in all three, and [load] and [save] differ only in the
    name of the path field and in how they wrap the errors of
    package os.

    Layout: the embedding first (binary64 rounding, the pieces of
    package time the program calls, the world the program runs in,
    then the program itself), then the lemmas about the embedding,
    then the properties of the program. *)

From Stdlib Require Import ZArith QArith Qround Qpower Lia Lqa Morphisms.
From Stdlib Require Import List String Ascii Bool DecimalString Permutation.
From Stdlib Require Uint63 PrimFloat SpecFloat FloatOps.
Import ListNotations.

Local Open Scope Z_scope.

(* ================================================================= *)
(** ** binary64 arithmetic *)

(** Go's [float64] is IEEE 754 binary64.  A finite float is modelled
    by the rational it denotes, and an operation by the exact result
    rounded to the nearest float, ties to even.  The exponent range is
    not modelled: the only floats this program computes are quotients
    and sums of 64-bit integers of magnitude 0 or within
    [2^-42, 2^63], far from overflow and from the subnormal range. *)
Module F64.

Local Open Scope Q_scope.

(** Bits of significand. *)
Definition prec : Z := 53.

(** Nearest integer, ties to even. *)
Definition rne (q : Q) : Z :=
  let f := Qfloor q in
  match Qcompare (q - inject_Z f) (1 # 2) with
  | Lt => f
  | Gt => (f + 1)%Z
  | Eq => if Z.even f then f else (f + 1)%Z
  end.

(** The binade of a positive rational: [2^e <= x < 2^(e+1)]. *)
Definition ilog2 (x : Q) : Z :=
  let e0 := (Z.log2 (Qnum x) - Z.log2 (Zpos (Qden x)))%Z in
  if Qle_bool (2 ^ e0) x then e0 else (e0 - 1)%Z.

(** Rounding of a positive rational to [prec] significant bits. *)
Definition round_pos (x : Q) : Q :=
  let s := (ilog2 x - (prec - 1))%Z in
  inject_Z (rne (x / 2 ^ s)) * 2 ^ s.

Definition round (x : Q) : Q :=
  match Qcompare x 0 with
  | Eq => 0
  | Gt => round_pos x
  | Lt => - round_pos (- x)
  end.

(** [float64(n)] for an integer [n]. *)
Definition of_int (n : Z) : Q := round (inject_Z n).

(** [x + y] and [x / y] on float64. *)
Definition add (x y : Q) : Q := round (x + y).
Definition div (x y : Q) : Q := round (x / y).

(** [int(x)]: the fraction is discarded (truncation towards zero). *)
Definition to_int (x : Q) : Z :=
  if Qle_bool 0 x then Qfloor x else Qceiling x.

End F64.

(* ================================================================= *)
(** ** The parts of package time the program uses *)

Module GoTime.

(** A [time.Time] is an instant, here the number of nanoseconds
    since the zero Time (January 1, year 1, 00:00:00 UTC).  The
    monotonic clock reading a Time may carry is left out: the
    program only measures against Times parsed from dates, which
    carry none, so [Sub] works on wall-clock instants. *)
Definition Time : Type := Z.

(** A [time.Duration] is an int64 count of nanoseconds. *)
Definition Duration : Type := Z.

Definition Nanosecond : Duration := 1.
Definition Microsecond : Duration := 1000 * Nanosecond.
Definition Millisecond : Duration := 1000 * Microsecond.
Definition Second : Duration := 1000 * Millisecond.
Definition Minute : Duration := 60 * Second.
Definition Hour : Duration := 60 * Minute.

Definition minDuration : Duration := - 2 ^ 63.
Definition maxDuration : Duration := 2 ^ 63 - 1.

(** The zero Time, which [print] hands to [mastery] for a kata
    without completions, or with none whose date parses. *)
Definition zeroTime : Time := 0.

(** [t.Sub(u)]: the duration [t - u], saturated to the range of
    Duration. *)
Definition Sub (t u : Time) : Duration :=
  let d := t - u in
  if d <? minDuration then minDuration
  else if maxDuration <? d then maxDuration
  else d.

(** [d.Hours()]:
<<
    hour := d / Hour
    nsec := d % Hour
    return float64(hour) + float64(nsec)/(60*60*1e9)
>>
    with Go's integer [/] and [%], which truncate towards zero. *)
Definition Hours (d : Duration) : Q :=
  let hour := Z.quot d Hour in
  let nsec := Z.rem d Hour in
  F64.add (F64.of_int hour)
          (F64.div (F64.of_int nsec) (F64.of_int (60 * 60 * 10 ^ 9))).

(** The civil date of a day count (days since January 1, year 1),
    in the proleptic Gregorian calendar. *)
Definition civil (days : Z) : Z * Z * Z :=
  let z := days + 306 in
  let era := z / 146097 in
  let doe := z mod 146097 in
  let yoe := (doe - doe / 1460 + doe / 36524 - doe / 146096) / 365 in
  let doy := doe - (365 * yoe + yoe / 4 - yoe / 100) in
  let mp := (5 * doy + 2) / 153 in
  let d := doy - (153 * mp + 2) / 5 + 1 in
  let m := if mp <? 10 then mp + 3 else mp - 9 in
  let y := yoe + era * 400 in
  (if m <=? 2 then y + 1 else y, m, d).

(** Decimal digits of [n], padded with zeros to [width] digits, with
    a sign in front of a negative number. *)
Definition appendInt (n : Z) (width : nat) : string :=
  let ds := NilZero.string_of_uint (N.to_uint (Z.to_N (Z.abs n))) in
  let pad := string_of_list_ascii
               (repeat "0"%char (width - String.length ds)) in
  ((if (n <? 0)%Z then "-" else EmptyString) ++ pad ++ ds)%string.

(** [t.Format("2006-01-02")] in a zone [offset] seconds east of
    UTC. *)
Definition Format_date (offset : Z) (t : Time) : string :=
  let secs := t / Second + offset in
  let '(y, m, d) := civil (secs / 86400) in
  (appendInt y 4 ++ "-" ++ appendInt m 2 ++ "-" ++ appendInt d 2)%string.

End GoTime.
Import GoTime.

(* ================================================================= *)
(** ** The program's data *)

(** [kata] represents a programming exercise. *)
Record kata : Type := mkKata {
  Name : string;
  URL : string;
  Done : list string
}.

(** [katas] represent a programming training: the receiver of the
    methods below.  Its field [katas] is [k_katas] here, the name
    being taken by the type. *)
Record katas : Type := mkKatas {
  filePath : string;
  k_katas : list kata
}.

(** [type Mastery int]. *)
Definition Mastery : Type := Z.

(* ================================================================= *)
(** ** The world the program runs in *)

(** Contents of a file, as far as [yaml.Unmarshal] into a [[]kata] can
    tell files apart: either it decodes to a list of katas, or decoding
    fails, having filled in [partial] before it gave up. *)
Inductive filedata : Type :=
  | Encoded (ks : list kata)
  | Malformed (partial : list kata).

(** Errors, by origin: those of package os, those of the YAML decoder,
    [fmt.Errorf] with a [%w] verb around another error, and [fmt.Errorf]
    with a plain message. *)
Inductive error : Type :=
  | PathError (op path : string)
  | YamlError
  | Wrap (msg : string) (err : error)
  | Errorf (msg : string).

(** What the program does to its environment, most recent first. *)
Inductive event : Type :=
  | ClockRead
  | FileRead (path : string)
  | FileWrite (path : string) (data : filedata).

(** The environment: the wall clock and the local zone (seconds east
    of UTC), the files by path, what the next [os.WriteFile] will do
    ([None]: it succeeds; [Some r]: it fails and leaves [r] at the
    path, where [r = None] is no file at all), and the trace of what
    the program did so far. *)
Record world : Type := mkWorld {
  wall : Time;
  zone : Z;
  disk : string -> option filedata;
  write_fault : option (option filedata);
  trace : list event
}.

Definition log (e : event) (w : world) : world :=
  mkWorld (wall w) (zone w) (disk w) (write_fault w) (e :: trace w).

Definition store (path : string) (c : option filedata) (w : world) : world :=
  mkWorld (wall w) (zone w)
          (fun p => if String.eqb p path then c else disk w p)
          (write_fault w) (trace w).

(** [time.Now()] and [time.Since(t)] read the wall clock. *)
Definition Now (w : world) : Time * world := (wall w, log ClockRead w).

Definition Since (t : Time) (w : world) : Duration * world :=
  let (now, w') := Now w in (Sub now t, w').

(** [os.ReadFile] and [os.WriteFile]. *)
Definition ReadFile (path : string) (w : world)
  : (filedata + error) * world :=
  match disk w path with
  | Some data => (inl data, log (FileRead path) w)
  | None => (inr (PathError "open"%string path), log (FileRead path) w)
  end.

Definition WriteFile (path : string) (data : filedata) (w : world)
  : option error * world :=
  match write_fault w with
  | None => (None, log (FileWrite path data) (store path (Some data) w))
  | Some r => (Some (PathError "open"%string path),
               log (FileWrite path data) (store path r w))
  end.

(** [yaml.Unmarshal] into a [[]kata]. *)
Definition yaml_Unmarshal (data : filedata) : list kata * option error :=
  match data with
  | Encoded ks => (ks, None)
  | Malformed partial => (partial, Some YamlError)
  end.

(** Methods on [*katas] run on the receiver and the world, and return
    a value or an error. *)
Record state : Type := mkState { self : katas; env : world }.

Inductive result (A : Type) : Type :=
  | Ok (a : A)
  | Err (e : error).
Arguments Ok {A} a.
Arguments Err {A} e.

Definition M (A : Type) : Type := state -> result A * state.

Definition ret {A} (a : A) : M A := fun s => (Ok a, s).

Definition raise {A} (e : error) : M A := fun s => (Err e, s).

Definition bind {A B} (m : M A) (f : A -> M B) : M B :=
  fun s => match m s with
           | (Ok a, s') => f a s'
           | (Err e, s') => (Err e, s')
           end.

Declare Scope go_scope.
Delimit Scope go_scope with go.
Notation "x <- m ;; k" := (bind m (fun x => k))
  (at level 61, m at next level, right associativity) : go_scope.
Notation "m ;; k" := (bind m (fun _ => k))
  (at level 61, right associativity) : go_scope.

(** Run a primitive of the environment. *)
Definition io {A} (f : world -> A * world) : M A :=
  fun s => let (a, w') := f (env s) in (Ok a, mkState (self s) w').

Definition get_self : M katas := fun s => (Ok (self s), s).

Definition set_katas (ks : list kata) : M unit :=
  fun s => (Ok tt, mkState (mkKatas (filePath (self s)) ks) (env s)).

(* ================================================================= *)
(** ** The program *)

(** [func (m Mastery) String() string]. *)
Definition levels : list string :=
  [EmptyString; "+"; "++"; "+++"; "++++"; "+++++"]%string.

Definition Mastery_String (m : Mastery) : string :=
  if (m <? 0) || (m >=? Z.of_nat (List.length levels)) then EmptyString
  else nth (Z.to_nat m) levels EmptyString.

(** [daysAgo := int(time.Since(lastDone).Hours() / 24)], as a function
    of the duration [time.Since] returned. *)
Definition daysAgo (elapsed : Duration) : Z :=
  F64.to_int (F64.div (Hours elapsed) (F64.of_int 24)).

(** [func mastery(timesDone int, lastDone time.Time) Mastery].  It
    takes two arguments and reads the clock itself, through
    [time.Since], once the early return is passed. *)
Definition mastery (timesDone : Z) (lastDone : Time) (w : world)
  : Mastery * world :=
  if timesDone <=? 0 then (0, w)
  else
    let base :=
      if timesDone <=? 2 then 1
      else if timesDone <=? 5 then 2
      else if timesDone <=? 9 then 3
      else if timesDone <=? 14 then 4
      else 5 in
    (* decay by recency *)
    let (elapsed, w') := Since lastDone w in
    let daysAgo := daysAgo elapsed in
    let decay :=
      if daysAgo <=? 3 then 0
      else if daysAgo <=? 7 then 1
      else if daysAgo <=? 14 then 2
      else 3 in
    let level := base - decay in
    let level := if level <? 0 then 0 else level in
    (level, w').

Local Open Scope go_scope.

(** [load] reads katas from the file. *)
Definition load : M unit :=
  k <- get_self ;;
  r <- io (ReadFile (filePath k)) ;;
  match r with
  | inr err => raise err
  | inl data =>
      let (ks, err) := yaml_Unmarshal data in
      set_katas ks ;;
      match err with
      | Some err => raise (Wrap "parsing file: "%string err)
      | None => ret tt
      end
  end.

Section Saving.

(** [yaml.Marshal] of a [[]kata]: the contents of a file, or an error.
    The encoder is the library's; what its files decode to is not
    taken to be the list encoded. *)
Variable yaml_Marshal : list kata -> filedata + error.

(** [save] writes katas to the file. *)
Definition save : M unit :=
  k <- get_self ;;
  match yaml_Marshal (k_katas k) with
  | inr err => raise (Wrap "marshaling katas: "%string err)
  | inl data =>
      err <- io (WriteFile (filePath k) data) ;;
      match err with
      | Some err => raise err
      | None => ret tt
      end
  end.

(** [l[i] = f(l[i])] for an index in range, which is all the loop
    below produces. *)
Fixpoint update {A} (i : nat) (f : A -> A) (l : list A) : list A :=
  match l, i with
  | [], _ => []
  | x :: l', O => f x :: l'
  | x :: l', S i' => x :: update i' f l'
  end.

(** [k.katas[i].Done = done]. *)
Definition set_Done (i : nat) (done : list string) : M unit :=
  k <- get_self ;;
  set_katas (update i (fun x => mkKata (Name x) (URL x) done) (k_katas k)).

(** [time.Now().Format("2006-01-02")], in the local zone. *)
Definition today_date (w : world) : string * world :=
  let (now, w') := Now w in (Format_date (zone w') now, w').

Definition newline : string := String (ascii_of_nat 10) EmptyString.

(** The loop of [markDone] over [k.katas] from index [i] on, [rest]
    being the katas not yet visited; the empty case is the statement
    after the loop. *)
Fixpoint markDone_range (name today : string) (i : nat) (rest : list kata)
  : M unit :=
  match rest with
  | [] =>
      k <- get_self ;;
      raise (Errorf ("kata " ++ name ++ " not found in " ++ filePath k)%string)
  | kata :: rest' =>
      if String.eqb (Name kata) name then
        (* Check if already done today *)
        if (0 <? List.length (Done kata))%nat
           && String.eqb (nth (List.length (Done kata) - 1) (Done kata) EmptyString) today
        then
          raise (Errorf ("kata " ++ name
                         ++ " already marked as done today" ++ newline)%string)
        else
          set_Done i (Done kata ++ [today])%list ;;
          save
      else markDone_range name today (S i) rest'
  end.

(** [markDone] marks a kata as completed today. *)
Definition markDone (name : string) : M unit :=
  load ;;
  today <- io today_date ;;
  k <- get_self ;;
  markDone_range name today 0 (k_katas k).

End Saving.

Local Close Scope go_scope.

(* ================================================================= *)
(** ** Vocabulary of the properties *)

(** *** Elapsed time *)

Definition Day : Duration := 24 * Hour.

(** The values a Duration can take. *)
Definition in_range (d : Duration) : Prop :=
  minDuration <= d <= maxDuration.

(** The fraction of an hour that [Hours] adds to the whole hours. *)
Definition frac (nsec : Z) : Q :=
  F64.div (F64.of_int nsec) (F64.of_int (60 * 60 * 10 ^ 9)).

(** [daysAgo] counts [k] whole days at both ends of the [k]-th day,
    in the past and in the future. *)
Definition exact_day (k : Z) : bool :=
  (daysAgo (k * Day) =? k)
  && (daysAgo (k * Day + (Day - 1)) =? k)
  && (daysAgo (- (k * Day)) =? - k)
  && (daysAgo (- (k * Day + (Day - 1))) =? - k).

(** *** The scoring tables, as the specification words them *)

(** Base level from the repetition count: 1-2 gives 1, 3-5 gives 2,
    6-9 gives 3, 10-14 gives 4, 15 and more gives 5 (and 0 gives 0). *)
Definition spec_base (timesDone : Z) : Z :=
  if (1 <=? timesDone) && (timesDone <=? 2) then 1
  else if (3 <=? timesDone) && (timesDone <=? 5) then 2
  else if (6 <=? timesDone) && (timesDone <=? 9) then 3
  else if (10 <=? timesDone) && (timesDone <=? 14) then 4
  else if 15 <=? timesDone then 5
  else 0.

(** Decay from recency: up to 3 days gives 0, 4-7 gives 1, 8-14 gives
    2, 15 and more gives 3. *)
Definition spec_decay (daysAgo : Z) : Z :=
  if daysAgo <=? 3 then 0
  else if (4 <=? daysAgo) && (daysAgo <=? 7) then 1
  else if (8 <=? daysAgo) && (daysAgo <=? 14) then 2
  else 3.

(** A level renders as that many plus signs. *)
Definition plus_signs (n : nat) : string :=
  string_of_list_ascii (repeat "+"%char n).

(** *** Completions *)

Definition named (name : string) (x : kata) : bool :=
  String.eqb (Name x) name.

(** The final entry of a list of completions is [today]. *)
Definition last_is (today : string) (done : list string) : Prop :=
  exists earlier, done = earlier ++ [today].

(** [x], completed once more, [today]. *)
Definition done_today (x : kata) (today : string) : kata :=
  mkKata (Name x) (URL x) (Done x ++ [today]).

(** Append [today] to the completions of the first kata called
    [name]. *)
Fixpoint mark (name today : string) (ks : list kata) : list kata :=
  match ks with
  | [] => []
  | x :: ks' =>
      if named name x then done_today x today :: ks'
      else x :: mark name today ks'
  end.

Definition failed {A} (r : result A) : Prop := exists e, r = Err e.

(** The errors [markDone] makes itself. *)
Definition not_found (name : string) (k : katas) : error :=
  Errorf ("kata " ++ name ++ " not found in " ++ filePath k)%string.

Definition already_done (name : string) : error :=
  Errorf ("kata " ++ name ++ " already marked as done today" ++ newline)%string.

(** How often the program wrote a file. *)
Definition is_write (e : event) : bool :=
  match e with
  | FileWrite _ _ => true
  | _ => false
  end.

Definition writes (w : world) : nat :=
  List.length (filter is_write (trace w)).

(** *** Concrete worlds *)

(** An encoder whose files decode to the list encoded. *)
Definition plain_Marshal (ks : list kata) : filedata + error :=
  inl (Encoded ks).

(** An encoder whose file does not decode when a name in the list
    starts with a blank. *)
Definition blank_Marshal (ks : list kata) : filedata + error :=
  if existsb (fun x => String.prefix " " (Name x)) ks
  then inl (Malformed [])
  else inl (Encoded ks).

(** A world with nothing in it but a clock that reads [now]. *)
Definition clock_at (now : Time) : world :=
  mkWorld now 0 (fun _ => None) None [].

Definition hello (done : list string) : kata :=
  mkKata "hello" "https://github.com/golang/example/tree/master/hello" done.

Definition home : katas := mkKatas "/home/gopher/.katas.yaml" [].

(** October 4, 2024, 00:00 UTC. *)
Definition a_day : Time := (719162 + 20000) * Day.

(** A world on that day, in UTC, whose katas file holds [ks] and
    where writing does what [fault] says. *)
Definition world_with (ks : list kata) (fault : option (option filedata))
  : world :=
  mkWorld a_day 0
          (fun p => if String.eqb p (filePath home) then Some (Encoded ks)
                    else None)
          fault [].

(** *** The processor's binary64 *)

(** The computation of [daysAgo] up to the conversion to [int], on
    the binary64 numbers of the proof assistant's kernel, which are
    the processor's, to hold the rounding of [F64] against. *)
Module Binary64.

Definition of_int (n : Z) : PrimFloat.float :=
  if n <? 0
  then PrimFloat.opp (PrimFloat.of_uint63 (Uint63.of_Z (- n)))
  else PrimFloat.of_uint63 (Uint63.of_Z n).

(** The rational a finite float denotes. *)
Definition to_Q (f : PrimFloat.float) : option Q :=
  match FloatOps.Prim2SF f with
  | SpecFloat.S754_zero _ => Some 0%Q
  | SpecFloat.S754_finite s m e =>
      Some ((if s then - inject_Z (Zpos m) else inject_Z (Zpos m)) * 2 ^ e)%Q
  | _ => None
  end.

Definition Hours (d : Duration) : PrimFloat.float :=
  PrimFloat.add (of_int (Z.quot d Hour))
                (PrimFloat.div (of_int (Z.rem d Hour))
                               (of_int (60 * 60 * 10 ^ 9))).

Definition days (d : Duration) : PrimFloat.float :=
  PrimFloat.div (Hours d) (of_int 24).

Definition agrees (d : Duration) : bool :=
  match to_Q (days d) with
  | Some q => Qeq_bool q (F64.div (GoTime.Hours d) (F64.of_int 24))
  | None => false
  end.

(** Durations to compare on: the day boundaries that matter, the
    ends of the range, and a pseudo-random walk over the range and
    over the year around zero. *)
Definition next (x : Z) : Z :=
  (x * 6364136223846793005 + 1442695040888963407) mod 2 ^ 64.

Fixpoint walk (n : nat) (x : Z) : list Duration :=
  match n with
  | O => []
  | S n' => (x - 2 ^ 63) :: (x mod (400 * Day) - 200 * Day) :: walk n' (next x)
  end.

Definition samples : list Duration :=
  [0; 1; -1; 71 * Hour; - (71 * Hour); 4 * Day - 1; 4 * Day; 8 * Day - 1;
   8 * Day; 15 * Day - 1; 15 * Day; 170 * Day - 1; 171 * Day - 1;
   - (171 * Day - 1); maxDuration; minDuration]
  ++ walk 200 2024.

End Binary64.

(* ================================================================= *)
(** ** The rest of the program *)

(** [t.IsZero()] and [t.After(u)]. *)
Definition IsZero (t : Time) : bool := t =? zeroTime.

Definition After (t u : Time) : bool := u <? t.

(** [os.Stat], as far as its error goes: there is none when the file
    is there.  It leaves no trace, the trace being of reads of the
    clock and of the contents of files. *)
Definition Stat (path : string) (w : world) : option error * world :=
  match disk w path with
  | Some _ => (None, w)
  | None => (Some (PathError "stat"%string path), w)
  end.

(** The verb [%d] of package fmt. *)
Definition Sprint_d (n : Z) : string := appendInt n 0.

(** [func (td TimesDone) String() string]. *)
Definition TimesDone_String (td : Z) : string :=
  (Sprint_d td ++ "x")%string.

(** [func (ld LastDone) String() string]. *)
Definition LastDone_String (t : Time) (w : world) : string * world :=
  if IsZero t then ("never"%string, w)
  else
    let (elapsed, w') := Since t w in
    let daysAgo := daysAgo elapsed in
    ((Sprint_d daysAgo ++ " days ago")%string, w').

(** What [print] accumulates over the katas. *)
Record totals : Type := mkTotals {
  totalTimesDone : Z;
  latestLastDone : Time;
  totalMastery : Mastery
}.

(** What [print] puts out: the rows it formats into the tabwriter,
    one list of cells for each [fmt.Fprintf(tw, format, ...)], whose
    format separates five cells by tabs and ends the line; and what
    it logs, a kata's name and the error for each date that does not
    parse. *)
Definition row : Type := list string.

Record output : Type := mkOutput {
  table : list row;
  logged : list (string * error)
}.

Definition silent : output := mkOutput [] [].

(** How a run of [main] ends: it returns, or [log.Fatal] ends it. *)
Inductive exit : Type :=
  | Returned (out : output)
  | Fatal (err : error).

Section Program.

(** The embedded file [katas.yaml], which is not among the sources. *)
Variable defaultKatas : filedata.

(** [yaml.Marshal], as for [save]. *)
Variable yaml_Marshal : list kata -> filedata + error.

(** [time.Parse("2006-01-02", d)]. *)
Variable Parse : string -> Time + error.

(** What becomes of the world while the program runs, from one
    reading of the clock to the next. *)
Variable elapse : world -> world.

Definition wait : M unit :=
  fun s => (Ok tt, mkState (self s) (elapse (env s))).

Local Open Scope go_scope.

(** [initConfig]. *)
Definition initConfig : M unit :=
  k <- get_self ;;
  err <- io (Stat (filePath k)) ;;
  match err with
  | None =>
      raise (Errorf ("file " ++ filePath k ++ " already exists")%string)
  | Some _ =>
      err <- io (WriteFile (filePath k) defaultKatas) ;;
      match err with
      | Some err => raise err
      | None => ret tt
      end
  end.

(** The loop of [print] over the completions of a kata, on its
    [lastDone] and on the [latestLastDone] of all katas. *)
Fixpoint scan (name : string) (done : list string) (lastDone latest : Time)
  : Time * Time * list (string * error) :=
  match done with
  | [] => (lastDone, latest, [])
  | d :: done' =>
      match Parse d with
      | inr err =>
          let '(lastDone', latest', logs) := scan name done' lastDone latest in
          (lastDone', latest', (name, err) :: logs)
      | inl t =>
          let lastDone := if After t lastDone then t else lastDone in
          let latest := if After t latest then t else latest in
          scan name done' lastDone latest
      end
  end.

(** The loop of [print] over the katas. *)
Fixpoint print_range (doneKata : string) (rest : list kata) (tot : totals)
  : M (totals * list row * list (string * error)) :=
  match rest with
  | [] => ret (tot, [], [])
  | kata :: rest' =>
      let timesDone := Z.of_nat (List.length (Done kata)) in
      let totalTimesDone := totalTimesDone tot + timesDone in
      let '(lastDone, latestLastDone, logs) :=
        scan (Name kata) (Done kata) zeroTime (latestLastDone tot) in
      let kataName :=
        if String.eqb (Name kata) doneKata then ("> " ++ Name kata)%string
        else Name kata in
      wait ;;
      kataMastery <- io (mastery timesDone lastDone) ;;
      let totalMastery := totalMastery tot + kataMastery in
      wait ;;
      ago <- io (LastDone_String lastDone) ;;
      let line := [kataName; TimesDone_String timesDone; ago;
                   Mastery_String kataMastery; URL kata] in
      more <- print_range doneKata rest'
                (mkTotals totalTimesDone latestLastDone totalMastery) ;;
      let '(tot', lines, logs') := more in
      ret (tot', line :: lines, (logs ++ logs')%list)
  end.

Definition heading : row :=
  ["Name"; "Done"; "Last done"; "Mastery"; "URL"]%string.

Definition rule : row :=
  ["----"; "----"; "---------"; "-------"; "---"]%string.

(** [print] displays all katas with their status. *)
Definition print (doneKata : string) : M output :=
  load ;;
  k <- get_self ;;
  if (List.length (k_katas k) =? 0)%nat then ret silent
  else
    more <- print_range doneKata (k_katas k) (mkTotals 0 zeroTime 0) ;;
    let '(tot, lines, logs) := more in
    let avgMastery :=
      if (0 <? List.length (k_katas k))%nat
      then Z.quot (totalMastery tot) (Z.of_nat (List.length (k_katas k)))
      else 0 in
    wait ;;
    ago <- io (LastDone_String (latestLastDone tot)) ;;
    ret (mkOutput
           ([heading; rule] ++ lines
            ++ [rule;
                [Sprint_d (Z.of_nat (List.length (k_katas k)));
                 TimesDone_String (totalTimesDone tot); ago;
                 Mastery_String avgMastery; EmptyString]])%list
           logs).

(** [newKatas], on the path [katasFilePath] returns. *)
Definition newKatas (path : string) : katas := mkKatas path [].

(** [main], on the path of the file and the flags as parsed.  The
    error [print] may return is dropped. *)
Definition main (path : string) (initFlag : bool) (doneFlag : string)
           (w : world) : exit * world :=
  let katas := newKatas path in
  if initFlag then
    match initConfig (mkState katas w) with
    | (Err err, s) => (Fatal err, env s)
    | (Ok _, s) => (Returned silent, env s)
    end
  else
    let marked :=
      if negb (String.eqb doneFlag EmptyString)
      then markDone yaml_Marshal doneFlag (mkState katas w)
      else (Ok tt, mkState katas w) in
    match marked with
    | (Err err, s) => (Fatal err, env s)
    | (Ok _, s) =>
        match print doneFlag s with
        | (Ok out, s') => (Returned out, env s')
        | (Err _, s') => (Returned silent, env s')
        end
    end.

Local Close Scope go_scope.

(** *** Vocabulary of the properties of [print] *)

(** The dates among [done] that parse, in their order, and the
    errors of those that do not. *)
Definition parsed (done : list string) : list Time :=
  flat_map (fun d => match Parse d with
                     | inl t => [t]
                     | inr _ => []
                     end) done.

Definition unparsed (name : string) (done : list string)
  : list (string * error) :=
  flat_map (fun d => match Parse d with
                     | inl _ => []
                     | inr err => [(name, err)]
                     end) done.

(** The latest of [t0] and the times [ts]. *)
Definition latest (ts : list Time) (t0 : Time) : Time :=
  fold_right Z.max t0 ts.

Definition kata_timesDone (x : kata) : Z := Z.of_nat (List.length (Done x)).

Definition kata_lastDone (x : kata) : Time := latest (parsed (Done x)) zeroTime.

(** The name of a kata as [print] shows it when [doneKata] was just
    done. *)
Definition shown_name (doneKata : string) (x : kata) : string :=
  if String.eqb (Name x) doneKata then ("> " ++ Name x)%string else Name x.

(** [r] is a row for the kata [x]: its name, its count, and its last
    completion and its mastery as of some readings of the clock. *)
Definition shows (doneKata : string) (x : kata) (r : row) : Prop :=
  exists w1 w2 : world,
    r = [shown_name doneKata x;
         TimesDone_String (kata_timesDone x);
         fst (LastDone_String (kata_lastDone x) w2);
         Mastery_String (fst (mastery (kata_timesDone x) (kata_lastDone x) w1));
         URL x].

(** A world that comes after [w] in a run: the clock has moved,
    events were logged, files were stored. *)
Inductive later (w : world) : world -> Prop :=
  | later_now : later w w
  | later_elapse (w' : world) : later w w' -> later w (elapse w')
  | later_log (e : event) (w' : world) : later w w' -> later w (log e w')
  | later_store (p : string) (c : option filedata) (w' : world) :
      later w w' -> later w (store p c w').

(** [r] is a row for the kata [x], its last completion and its mastery
    as of readings of the clock in worlds that come after [w]. *)
Definition shows_after (w : world) (doneKata : string) (x : kata) (r : row)
  : Prop :=
  exists w1 w2 : world,
    later w w1 /\ later w1 w2
    /\ r = [shown_name doneKata x;
            TimesDone_String (kata_timesDone x);
            fst (LastDone_String (kata_lastDone x) w2);
            Mastery_String (fst (mastery (kata_timesDone x) (kata_lastDone x) w1));
            URL x].

(** The row of a kata that was never done by any date, with the full
    decay. *)
Definition never_row (doneKata : string) (x : kata) : row :=
  [shown_name doneKata x;
   TimesDone_String (kata_timesDone x);
   "never"%string;
   Mastery_String (Z.max 0 (spec_base (kata_timesDone x) - 3));
   URL x].

(** None of the completions of [x] parses as a date. *)
Definition undated (x : kata) : Prop :=
  forall d, In d (Done x) -> exists err, Parse d = inr err.

(** The level a row shows: the length of its fourth cell. *)
Definition shown_level (r : row) : Z :=
  Z.of_nat (String.length (nth 3 r EmptyString)).

Definition total (l : list Z) : Z := fold_right Z.add 0 l.

(** The error [initConfig] makes itself. *)
Definition already_exists (k : katas) : error :=
  Errorf ("file " ++ filePath k ++ " already exists")%string.

(** The completions of all katas, counted. *)
Definition completions (ks : list kata) : Z :=
  total (map kata_timesDone ks).

End Program.

(** *** Concrete instances, to run the program on *)

(** The katas of the README, for the embedded file. *)
Definition readme_katas : list kata :=
  [hello [];
   mkKata "helloserver"
          "https://github.com/golang/example/tree/master/helloserver" [];
   mkKata "outyet" "https://github.com/golang/example/tree/master/outyet" []].

(** A nanosecond passes. *)
Definition tick (w : world) : world :=
  mkWorld (wall w + 1) (zone w) (disk w) (write_fault w) (trace w).

(** A parser of dates of the form [2006-01-02]: four, two and two
    digits, a month of the year and a day of that month; the Time is
    midnight UTC. *)
Definition digit (c : ascii) : option Z :=
  let n := nat_of_ascii c in
  if ((48 <=? n) && (n <=? 57))%nat then Some (Z.of_nat (n - 48)) else None.

Fixpoint number (cs : list ascii) (acc : Z) : option Z :=
  match cs with
  | [] => Some acc
  | c :: cs' =>
      match digit c with
      | Some d => number cs' (10 * acc + d)
      | None => None
      end
  end.

Definition daysIn (y m : Z) : Z :=
  if m =? 2 then
    if ((y mod 4 =? 0) && negb (y mod 100 =? 0)) || (y mod 400 =? 0)
    then 29 else 28
  else if (m =? 4) || (m =? 6) || (m =? 9) || (m =? 11) then 30
  else 31.

(** Days from January 1, year 1, to a civil date. *)
Definition days_from_civil (y m d : Z) : Z :=
  let y' := if m <=? 2 then y - 1 else y in
  let era := y' / 400 in
  let yoe := y' mod 400 in
  let mp := (m + 9) mod 12 in
  let doy := (153 * mp + 2) / 5 + d - 1 in
  era * 146097 + (yoe * 365 + yoe / 4 - yoe / 100 + doy) - 306.

Definition parse_date (s : string) : Time + error :=
  match list_ascii_of_string s with
  | [y1; y2; y3; y4; dash1; m1; m2; dash2; d1; d2] =>
      match number [y1; y2; y3; y4] 0, number [m1; m2] 0, number [d1; d2] 0 with
      | Some y, Some m, Some d =>
          if Ascii.eqb dash1 "-" && Ascii.eqb dash2 "-"
             && (1 <=? m) && (m <=? 12) && (1 <=? d) && (d <=? daysIn y m)
          then inl (days_from_civil y m d * Day)
          else inr (Errorf "parsing time: out of range"%string)
      | _, _, _ => inr (Errorf "parsing time: cannot parse"%string)
      end
  | _ => inr (Errorf "parsing time: cannot parse"%string)
  end.

(* ================================================================= *)
(** ** binary64 rounding: monotonicity and exactness *)

Module F64Facts.
Import F64.
Local Open Scope Q_scope.

Lemma rne_floor (q : Q) : (Qfloor q <= rne q <= Qfloor q + 1)%Z.
Proof.
  unfold rne. destruct (Qcompare _ _); [destruct (Z.even _)| |]; lia.
Qed.

Lemma rne_le (p q : Q) : p <= q -> (rne p <= rne q)%Z.
Proof.
  intros Hpq.
  pose proof (Qfloor_resp_le _ _ Hpq) as Hf.
  destruct (Z.eq_dec (Qfloor p) (Qfloor q)) as [E | N].
  - unfold rne. rewrite <- E.
    destruct (Qcompare_spec (p - inject_Z (Qfloor p)) (1 # 2)) as [Hp|Hp|Hp];
    destruct (Qcompare_spec (q - inject_Z (Qfloor p)) (1 # 2)) as [Hq|Hq|Hq];
      try destruct (Z.even (Qfloor p)); try lia; exfalso; lra.
  - pose proof (rne_floor p). pose proof (rne_floor q). lia.
Qed.

Lemma rne_inject (n : Z) : rne (inject_Z n) = n.
Proof.
  unfold rne. rewrite Qfloor_Z.
  destruct (Qcompare_spec (inject_Z n - inject_Z n) (1 # 2)) as [H|H|H];
    try reflexivity; exfalso; lra.
Qed.

Lemma rne_eq (p q : Q) : p == q -> rne p = rne q.
Proof.
  intros E. apply Z.le_antisymm; apply rne_le; rewrite E; apply Qle_refl.
Qed.

(** [rne] is within a half of its argument. *)
Lemma rne_nearest (q : Q) :
  - (1 # 2) <= inject_Z (rne q) - q <= 1 # 2.
Proof.
  pose proof (Qfloor_le q) as L. pose proof (Qlt_floor q) as U.
  rewrite inject_Z_plus in U. change (inject_Z 1) with 1 in U.
  unfold rne.
  destruct (Qcompare_spec (q - inject_Z (Qfloor q)) (1 # 2)) as [H|H|H];
    [destruct (Z.even (Qfloor q)) | |];
    rewrite ?inject_Z_plus; change (inject_Z 1) with 1; lra.
Qed.

Lemma pow2_pos (e : Z) : 0 < 2 ^ e.
Proof. apply Qpower_0_lt. reflexivity. Qed.

Lemma pow2_le (a b : Z) : (a <= b)%Z -> 2 ^ a <= 2 ^ b.
Proof. intros H. apply Qpower_le_compat_l; [exact H | discriminate]. Qed.

Lemma pow2_lt_inv (a b : Z) : 2 ^ a < 2 ^ b -> (a < b)%Z.
Proof. intros H. apply (Qpower_lt_compat_l_inv 2); [exact H | reflexivity]. Qed.

Lemma pow2_add (a b : Z) : 2 ^ (a + b) == 2 ^ a * 2 ^ b.
Proof. apply Qpower_plus. discriminate. Qed.

Lemma pow2_inject (k : Z) : (0 <= k)%Z -> inject_Z (2 ^ k) == 2 ^ k.
Proof. intros H. rewrite Zpower_Qpower by exact H. reflexivity. Qed.

Lemma Qmake_mul (n : Z) (d : positive) :
  (n # d) * inject_Z (Zpos d) == inject_Z n.
Proof.
  rewrite (Qmake_Qdiv n d). field.
  intros H. apply (inject_Z_injective (Zpos d) 0) in H. discriminate.
Qed.

Lemma inject_Z_lt (a b : Z) : (a < b)%Z -> inject_Z a < inject_Z b.
Proof. intros H. rewrite <- Zlt_Qlt. exact H. Qed.

Lemma inject_Z_le (a b : Z) : (a <= b)%Z -> inject_Z a <= inject_Z b.
Proof. intros H. rewrite <- Zle_Qle. exact H. Qed.

(** The binade found by [ilog2] is the right one. *)
Lemma ilog2_spec (x : Q) :
  0 < x -> 2 ^ ilog2 x <= x /\ x < 2 ^ (ilog2 x + 1).
Proof.
  destruct x as [n d]. intros Hx.
  assert (Hn : (0 < n)%Z).
  { unfold Qlt in Hx. simpl in Hx. lia. }
  unfold ilog2. cbn [Qnum Qden].
  set (ln := Z.log2 n). set (ld := Z.log2 (Zpos d)).
  destruct (Z.log2_spec n Hn) as [Hn1 Hn2].
  destruct (Z.log2_spec (Zpos d) eq_refl) as [Hd1 Hd2].
  fold ln in Hn1, Hn2. fold ld in Hd1, Hd2.
  assert (Hln : (0 <= ln)%Z) by apply Z.log2_nonneg.
  assert (Hld : (0 <= ld)%Z) by apply Z.log2_nonneg.
  apply inject_Z_le in Hn1, Hd1. apply inject_Z_lt in Hn2, Hd2.
  rewrite pow2_inject in Hn1, Hn2, Hd1, Hd2 by lia.
  pose proof (Qmake_mul n d) as Hmul.
  set (x := n # d) in *. set (D := inject_Z (Zpos d)) in *.
  set (N := inject_Z n) in *.
  assert (Hlo : 2 ^ (ln - ld - 1) < x).
  { pose proof (pow2_add (ln - ld - 1) (Z.succ ld)) as E.
    replace (ln - ld - 1 + Z.succ ld)%Z with ln in E by lia.
    pose proof (pow2_pos (ln - ld - 1)). pose proof (pow2_pos ld).
    apply Qnot_le_lt. intros C.
    assert (x * D <= 2 ^ (ln - ld - 1) * D) by (apply Qmult_le_compat_r; lra).
    assert (2 ^ (ln - ld - 1) * D < 2 ^ (ln - ld - 1) * 2 ^ Z.succ ld)
      by (apply Qmult_lt_l; lra).
    lra. }
  assert (Hhi : x < 2 ^ (ln - ld + 1)).
  { pose proof (pow2_add (ln - ld + 1) ld) as E.
    replace (ln - ld + 1 + ld)%Z with (Z.succ ln) in E by lia.
    pose proof (pow2_pos (ln - ld + 1)). pose proof (pow2_pos ld).
    apply Qnot_le_lt. intros C.
    assert (2 ^ (ln - ld + 1) * D <= x * D) by (apply Qmult_le_compat_r; lra).
    assert (2 ^ (ln - ld + 1) * 2 ^ ld <= 2 ^ (ln - ld + 1) * D)
      by (apply Qmult_le_l; lra).
    lra. }
  destruct (Qle_bool (2 ^ (ln - ld)) x) eqn:B.
  - apply Qle_bool_iff in B. split; assumption.
  - assert (B' : x < 2 ^ (ln - ld)).
    { apply Qnot_le_lt. intros C. apply Qle_bool_iff in C. congruence. }
    replace (ln - ld - 1 + 1)%Z with (ln - ld)%Z by lia.
    split; [apply Qlt_le_weak |]; assumption.
Qed.

Lemma ilog2_unique (x : Q) (e : Z) :
  2 ^ e <= x -> x < 2 ^ (e + 1) -> ilog2 x = e.
Proof.
  intros Hlo Hhi.
  assert (Hx : 0 < x) by (pose proof (pow2_pos e); lra).
  destruct (ilog2_spec x Hx) as [Hl Hh].
  assert (2 ^ e < 2 ^ (ilog2 x + 1)) as H1 by lra.
  assert (2 ^ ilog2 x < 2 ^ (e + 1)) as H2 by lra.
  apply pow2_lt_inv in H1, H2. lia.
Qed.

Lemma ilog2_le (x y : Q) : 0 < x -> x <= y -> (ilog2 x <= ilog2 y)%Z.
Proof.
  intros Hx Hxy.
  destruct (ilog2_spec x Hx) as [Hl _].
  destruct (ilog2_spec y) as [_ Hh]; [lra |].
  assert (2 ^ ilog2 x < 2 ^ (ilog2 y + 1)) as H by lra.
  apply pow2_lt_inv in H. lia.
Qed.

Lemma pow2_neq0 (e : Z) : ~ 2 ^ e == 0.
Proof. pose proof (pow2_pos e). lra. Qed.

Lemma scale_le (x y : Q) (s : Z) : x <= y -> x / 2 ^ s <= y / 2 ^ s.
Proof.
  intros H. apply Qmult_le_compat_r; [exact H |].
  apply Qinv_le_0_compat, Qlt_le_weak, pow2_pos.
Qed.

Lemma scale_pow2 (e s : Z) : 2 ^ e / 2 ^ s == 2 ^ (e - s).
Proof.
  pose proof (pow2_add (e - s) s) as E.
  replace (e - s + s)%Z with e in E by lia.
  rewrite E. field. apply pow2_neq0.
Qed.

Lemma rne_pow2 (k : Z) : (0 <= k)%Z -> rne (2 ^ k) = (2 ^ k)%Z.
Proof.
  intros H. rewrite <- (rne_inject (2 ^ k)).
  apply rne_eq. symmetry. apply pow2_inject, H.
Qed.

(** The significand of a positive number has exactly [prec] bits,
    or is the next power of two. *)
Lemma rne_significand (x : Q) :
  0 < x ->
  (2 ^ (prec - 1) <= rne (x / 2 ^ (ilog2 x - (prec - 1))) <= 2 ^ prec)%Z.
Proof.
  intros Hx. destruct (ilog2_spec x Hx) as [Hl Hh].
  set (s := (ilog2 x - (prec - 1))%Z).
  apply (scale_le _ _ s) in Hl.
  apply Qlt_le_weak, (scale_le _ _ s) in Hh.
  rewrite scale_pow2 in Hl, Hh.
  replace (ilog2 x - s)%Z with (prec - 1)%Z in Hl by (unfold s; lia).
  replace (ilog2 x + 1 - s)%Z with prec in Hh by (unfold s; lia).
  apply rne_le in Hl, Hh.
  rewrite rne_pow2 in Hl, Hh by (unfold prec; lia).
  lia.
Qed.

Lemma round_pos_bounds (x : Q) :
  0 < x -> 2 ^ ilog2 x <= round_pos x /\ round_pos x <= 2 ^ (ilog2 x + 1).
Proof.
  intros Hx. pose proof (rne_significand x Hx) as [Hl Hh].
  unfold round_pos. set (s := (ilog2 x - (prec - 1))%Z) in *.
  apply inject_Z_le in Hl, Hh.
  rewrite pow2_inject in Hl, Hh by (unfold prec; lia).
  pose proof (pow2_pos s) as Hs.
  pose proof (pow2_add (prec - 1) s) as E1.
  pose proof (pow2_add prec s) as E2.
  replace (prec - 1 + s)%Z with (ilog2 x) in E1 by (unfold s; lia).
  replace (prec + s)%Z with (ilog2 x + 1)%Z in E2 by (unfold s; lia).
  rewrite E1, E2. split; apply Qmult_le_compat_r; lra.
Qed.

Lemma round_pos_pos (x : Q) : 0 < x -> 0 < round_pos x.
Proof.
  intros Hx. destruct (round_pos_bounds x Hx) as [H _].
  pose proof (pow2_pos (ilog2 x)). lra.
Qed.

(** Rounding is to within half a unit in the last place. *)
Lemma round_pos_nearest (x : Q) :
  0 < x ->
  - 2 ^ (ilog2 x - prec) <= round_pos x - x <= 2 ^ (ilog2 x - prec).
Proof.
  intros Hx. unfold round_pos.
  set (s := (ilog2 x - (prec - 1))%Z).
  pose proof (pow2_pos s) as Hs.
  pose proof (pow2_add (ilog2 x - prec) 1) as E.
  replace (ilog2 x - prec + 1)%Z with s in E by (unfold s; lia).
  change (2 ^ 1) with 2 in E.
  pose proof (rne_nearest (x / 2 ^ s)) as [L U].
  assert (Ex : x == x / 2 ^ s * 2 ^ s) by (field; apply pow2_neq0).
  set (m := inject_Z (rne (x / 2 ^ s))) in *.
  set (q := x / 2 ^ s) in *.
  assert (L' : - (1 # 2) * 2 ^ s <= (m - q) * 2 ^ s)
    by (apply Qmult_le_compat_r; lra).
  assert (U' : (m - q) * 2 ^ s <= (1 # 2) * 2 ^ s)
    by (apply Qmult_le_compat_r; lra).
  split; lra.
Qed.

Lemma round_pos_le (x y : Q) :
  0 < x -> x <= y -> round_pos x <= round_pos y.
Proof.
  intros Hx Hxy. assert (Hy : 0 < y) by lra.
  pose proof (ilog2_le x y Hx Hxy) as He.
  destruct (Z.eq_dec (ilog2 x) (ilog2 y)) as [E | N].
  - unfold round_pos. rewrite E.
    apply Qmult_le_compat_r; [| apply Qlt_le_weak, pow2_pos].
    apply inject_Z_le, rne_le, scale_le, Hxy.
  - destruct (round_pos_bounds x Hx) as [_ Hh].
    destruct (round_pos_bounds y Hy) as [Hl _].
    pose proof (pow2_le (ilog2 x + 1) (ilog2 y) ltac:(lia)). lra.
Qed.

(** Rounding is monotone. *)
Lemma round_le (x y : Q) : x <= y -> round x <= round y.
Proof.
  intros Hxy. unfold round.
  destruct (Qcompare_spec x 0) as [Hx|Hx|Hx];
  destruct (Qcompare_spec y 0) as [Hy|Hy|Hy]; try (exfalso; lra).
  - apply Qle_refl.
  - apply Qlt_le_weak, round_pos_pos, Hy.
  - pose proof (round_pos_pos (- x)) as H. lra.
  - apply Qopp_le_compat, round_pos_le; lra.
  - pose proof (round_pos_pos (- x)) as H.
    pose proof (round_pos_pos y Hy). lra.
  - apply round_pos_le; assumption.
Qed.

Lemma round_eq (x y : Q) : x == y -> round x == round y.
Proof.
  intros E. apply Qle_antisym; apply round_le; rewrite E; apply Qle_refl.
Qed.

Lemma round_opp (x : Q) : round (- x) == - round x.
Proof.
  unfold round.
  destruct (Qcompare_spec x 0) as [Hx|Hx|Hx];
  destruct (Qcompare_spec (- x) 0) as [Hy|Hy|Hy]; try (exfalso; lra).
  - reflexivity.
  - lra.
  - assert (E : round_pos (- - x) == round_pos x).
    { apply Qle_antisym; apply round_pos_le; lra. }
    lra.
Qed.

(** A number with a significand of [prec] bits is a float. *)
Lemma round_pos_exact (m s : Z) :
  (2 ^ (prec - 1) <= m < 2 ^ prec)%Z ->
  round_pos (inject_Z m * 2 ^ s) == inject_Z m * 2 ^ s.
Proof.
  intros [Hl Hh].
  apply inject_Z_le in Hl. apply inject_Z_lt in Hh.
  rewrite pow2_inject in Hl, Hh by (unfold prec; lia).
  pose proof (pow2_pos s) as Hs.
  assert (E : ilog2 (inject_Z m * 2 ^ s) = (prec - 1 + s)%Z).
  { apply ilog2_unique.
    - rewrite pow2_add. apply Qmult_le_compat_r; lra.
    - replace (prec - 1 + s + 1)%Z with (prec + s)%Z by lia.
      rewrite pow2_add. apply Qmult_lt_compat_r; lra. }
  unfold round_pos. rewrite E.
  replace (prec - 1 + s - (prec - 1))%Z with s by lia.
  rewrite (rne_eq _ (inject_Z m)); [rewrite rne_inject; reflexivity |].
  field. apply pow2_neq0.
Qed.

(** Integers below [2^prec] in magnitude convert exactly. *)
Lemma of_int_exact (n : Z) :
  (Z.abs n < 2 ^ prec)%Z -> of_int n == inject_Z n.
Proof.
  assert (P : forall p : Z, (0 < p < 2 ^ prec)%Z ->
                round_pos (inject_Z p) == inject_Z p).
  { intros p [Hp Hb].
    set (e := Z.log2 p).
    assert (He : (0 <= e < prec)%Z).
    { split; [apply Z.log2_nonneg |]. apply Z.log2_lt_pow2; assumption. }
    destruct (Z.log2_spec p Hp) as [Hl Hh]. fold e in Hl, Hh.
    assert (Em : inject_Z p == inject_Z (p * 2 ^ (prec - 1 - e)) * 2 ^ (e - (prec - 1))).
    { rewrite inject_Z_mult, pow2_inject by lia.
      pose proof (pow2_add (prec - 1 - e) (e - (prec - 1))) as E.
      replace (prec - 1 - e + (e - (prec - 1)))%Z with 0%Z in E by lia.
      change (2 ^ 0) with 1 in E.
      rewrite <- Qmult_assoc, <- E. ring. }
    assert (Hm : (2 ^ (prec - 1) <= p * 2 ^ (prec - 1 - e) < 2 ^ prec)%Z).
    { replace (2 ^ (prec - 1))%Z with (2 ^ e * 2 ^ (prec - 1 - e))%Z
        by (rewrite <- Z.pow_add_r by lia; f_equal; lia).
      replace (2 ^ prec)%Z with (2 ^ Z.succ e * 2 ^ (prec - 1 - e))%Z
        by (rewrite <- Z.pow_add_r by lia; f_equal; lia).
      assert (0 < 2 ^ (prec - 1 - e))%Z by (apply Z.pow_pos_nonneg; lia).
      split; [apply Z.mul_le_mono_nonneg_r | apply Z.mul_lt_mono_pos_r]; lia. }
    pose proof (round_pos_exact _ (e - (prec - 1)) Hm) as R.
    assert (Hp' : 0 < inject_Z p) by (apply (inject_Z_lt 0 p Hp)).
    set (y := inject_Z (p * 2 ^ (prec - 1 - e)) * 2 ^ (e - (prec - 1))) in *.
    transitivity (round_pos y); [| lra].
    apply Qle_antisym; apply round_pos_le; lra. }
  intros Hn. unfold of_int, round.
  destruct (Qcompare_spec (inject_Z n) 0) as [H|H|H].
  - symmetry. exact H.
  - assert (n < 0)%Z by (rewrite Zlt_Qlt; exact H).
    rewrite <- inject_Z_opp, P by lia.
    rewrite inject_Z_opp. ring.
  - assert (0 < n)%Z by (rewrite Zlt_Qlt; exact H).
    apply P. lia.
Qed.

Lemma to_int_le (x y : Q) : x <= y -> (to_int x <= to_int y)%Z.
Proof.
  intros Hxy. unfold to_int.
  destruct (Qle_bool 0 x) eqn:Bx; destruct (Qle_bool 0 y) eqn:By.
  - apply Qfloor_resp_le, Hxy.
  - apply Qle_bool_iff in Bx.
    assert (0 <= y) as C by lra. apply Qle_bool_iff in C. congruence.
  - assert (Hx : x <= 0).
    { apply Qlt_le_weak, Qnot_le_lt. intros C.
      apply Qle_bool_iff in C. congruence. }
    apply Qle_bool_iff in By.
    apply Qceiling_resp_le in Hx. apply Qfloor_resp_le in By.
    change (Qceiling 0) with 0%Z in Hx. change (Qfloor 0) with 0%Z in By.
    lia.
  - apply Qceiling_resp_le, Hxy.
Qed.

#[export] Instance round_Proper : Proper (Qeq ==> Qeq) round.
Proof. intros x y E. apply round_eq, E. Qed.

#[export] Instance add_Proper : Proper (Qeq ==> Qeq ==> Qeq) add.
Proof. intros x y E x' y' E'. unfold add. rewrite E, E'. reflexivity. Qed.

#[export] Instance div_Proper : Proper (Qeq ==> Qeq ==> Qeq) div.
Proof. intros x y E x' y' E'. unfold div. rewrite E, E'. reflexivity. Qed.

Lemma to_int_eq (x y : Q) : x == y -> to_int x = to_int y.
Proof.
  intros E. apply Z.le_antisymm; apply to_int_le; rewrite E; apply Qle_refl.
Qed.

Lemma add_le (x x' y y' : Q) : x <= x' -> y <= y' -> add x y <= add x' y'.
Proof. intros H H'. apply round_le. lra. Qed.

(** Division by a positive float is monotone in the dividend. *)
Lemma div_le (x x' y : Q) : 0 < y -> x <= x' -> div x y <= div x' y.
Proof.
  intros Hy H. apply round_le, Qmult_le_compat_r; [exact H |].
  apply Qinv_le_0_compat. lra.
Qed.

Lemma to_int_inject (k : Z) : to_int (inject_Z k) = k.
Proof.
  unfold to_int. destruct (Qle_bool 0 (inject_Z k));
    [apply Qfloor_Z | apply Qceiling_Z].
Qed.

End F64Facts.

Module TimeFacts.
Import F64 F64Facts.

Lemma Sub_in_range (t u : Time) : in_range (Sub t u).
Proof.
  unfold in_range, Sub, minDuration, maxDuration.
  destruct (Z.ltb_spec (t - u) (- 2 ^ 63));
    [| destruct (Z.ltb_spec (2 ^ 63 - 1) (t - u))]; lia.
Qed.

Lemma Sub_le (t t' u : Time) : t <= t' -> Sub t u <= Sub t' u.
Proof.
  unfold Sub, minDuration, maxDuration. intros H.
  destruct (Z.ltb_spec (t - u) (- 2 ^ 63));
    destruct (Z.ltb_spec (t' - u) (- 2 ^ 63));
    try destruct (Z.ltb_spec (2 ^ 63 - 1) (t - u));
    try destruct (Z.ltb_spec (2 ^ 63 - 1) (t' - u)); lia.
Qed.

Local Open Scope Q_scope.

Lemma frac_le (m n : Z) : (m <= n)%Z -> frac m <= frac n.
Proof.
  intros H. unfold frac. apply div_le; [reflexivity |].
  apply round_le, inject_Z_le, H.
Qed.

Lemma frac_nonneg (n : Z) : (0 <= n)%Z -> 0 <= frac n.
Proof. intros H. apply (frac_le 0 n H). Qed.

Lemma frac_nonpos (n : Z) : (n <= 0)%Z -> frac n <= 0.
Proof. intros H. apply (frac_le n 0 H). Qed.

Lemma frac_le_1 (n : Z) : (n <= Hour)%Z -> frac n <= 1.
Proof.
  intros H. apply (Qle_trans _ (frac Hour)); [apply frac_le, H |].
  vm_compute. discriminate.
Qed.

Lemma frac_ge_m1 (n : Z) : (- Hour <= n)%Z -> - (1) <= frac n.
Proof.
  intros H. apply (Qle_trans _ (frac (- Hour))); [| apply frac_le, H].
  vm_compute. discriminate.
Qed.

(** [Hours] is monotone on the range of Duration. *)
Lemma Hours_le (d d' : Duration) :
  in_range d -> in_range d' -> (d <= d')%Z -> Hours d <= Hours d'.
Proof.
  unfold in_range, minDuration, maxDuration. intros Hd Hd' H.
  unfold Hours. fold (frac (Z.rem d Hour)). fold (frac (Z.rem d' Hour)).
  assert (Hh : (Z.abs (Z.quot d Hour) < 2 ^ prec)%Z).
  { unfold Hour, Minute, Second, Millisecond, Microsecond, Nanosecond, prec.
    Z.quot_rem_to_equations. lia. }
  assert (Hh' : (Z.abs (Z.quot d' Hour) < 2 ^ prec)%Z).
  { unfold Hour, Minute, Second, Millisecond, Microsecond, Nanosecond, prec.
    Z.quot_rem_to_equations. lia. }
  apply round_le. rewrite !of_int_exact by assumption.
  assert (Hq : (Z.quot d Hour <= Z.quot d' Hour)%Z)
    by (apply Z.quot_le_mono; [reflexivity | exact H]).
  destruct (Z.eq_dec (Z.quot d Hour) (Z.quot d' Hour)) as [E | N].
  - rewrite E. apply Qplus_le_r, frac_le.
    unfold Hour, Minute, Second, Millisecond, Microsecond, Nanosecond in *.
    Z.quot_rem_to_equations. lia.
  - assert (Hq' : inject_Z (Z.quot d Hour) + 1 <= inject_Z (Z.quot d' Hour)).
    { change 1 with (inject_Z 1). rewrite <- inject_Z_plus.
      apply inject_Z_le. lia. }
    assert (frac (Z.rem d Hour) <= 1 + frac (Z.rem d' Hour)); [| lra].
    destruct (Z.le_gt_cases 0 d) as [P | P].
    + pose proof (frac_le_1 (Z.rem d Hour)).
      pose proof (frac_nonneg (Z.rem d' Hour)).
      assert (Z.rem d Hour <= Hour /\ 0 <= Z.rem d' Hour)%Z as [].
      { unfold Hour, Minute, Second, Millisecond, Microsecond, Nanosecond in *.
        Z.quot_rem_to_equations. lia. }
      intuition lra.
    + pose proof (frac_nonpos (Z.rem d Hour)).
      pose proof (frac_ge_m1 (Z.rem d' Hour)).
      assert (Z.rem d Hour <= 0 /\ - Hour <= Z.rem d' Hour)%Z as [].
      { unfold Hour, Minute, Second, Millisecond, Microsecond, Nanosecond in *.
        Z.quot_rem_to_equations. lia. }
      intuition lra.
Qed.

Local Close Scope Q_scope.

(** [daysAgo] is monotone on the range of Duration. *)
Lemma daysAgo_le (d d' : Duration) :
  in_range d -> in_range d' -> d <= d' -> daysAgo d <= daysAgo d'.
Proof.
  intros Hd Hd' H. unfold daysAgo.
  apply to_int_le, div_le; [reflexivity |].
  apply Hours_le; assumption.
Qed.

(** The first 170 days, in both directions, by computation. *)
Lemma exact_days_170 :
  forallb (fun i => exact_day (Z.of_nat i)) (seq 0 170) = true.
Proof. vm_compute. reflexivity. Qed.

Lemma exact_day_at (k : Z) : 0 <= k < 170 -> exact_day k = true.
Proof.
  intros Hk. rewrite <- (Z2Nat.id k) by lia.
  apply (proj1 (forallb_forall _ (seq 0 170)) exact_days_170).
  apply in_seq. lia.
Qed.

Lemma exact_days_at (k : Z) :
  0 <= k < 170 ->
  daysAgo (k * Day) = k /\ daysAgo (k * Day + (Day - 1)) = k
  /\ daysAgo (- (k * Day)) = - k
  /\ daysAgo (- (k * Day + (Day - 1))) = - k.
Proof.
  intros Hk. pose proof (exact_day_at k Hk) as X.
  unfold exact_day in X.
  rewrite !andb_true_iff, !Z.eqb_eq in X. tauto.
Qed.

Lemma near_in_range (x : Duration) : Z.abs x <= 171 * Day -> in_range x.
Proof.
  unfold in_range, minDuration, maxDuration, Day, Hour, Minute, Second,
    Millisecond, Microsecond, Nanosecond. lia.
Qed.

Lemma Day_value : Day = 86400000000000.
Proof. reflexivity. Qed.

Lemma daysAgo_exact (d : Duration) :
  Z.abs d < 170 * Day -> daysAgo d = Z.quot d Day.
Proof.
  intros Hd. rewrite Day_value in Hd.
  set (k := Z.abs (Z.quot d Day)).
  assert (Hk : 0 <= k < 170).
  { unfold k. rewrite Day_value. Z.quot_rem_to_equations. lia. }
  destruct (exact_days_at k Hk) as (I1 & I2 & I3 & I4).
  destruct (Z.le_gt_cases 0 d) as [P | P].
  - assert (E : Z.quot d Day = k /\ k * Day <= d <= k * Day + (Day - 1)).
    { unfold k. rewrite Day_value. Z.quot_rem_to_equations. lia. }
    destruct E as [E [L U]]. rewrite E.
    apply Z.le_antisymm.
    + rewrite <- I2.
      apply daysAgo_le; [apply near_in_range | apply near_in_range |];
        rewrite ?Day_value in *; lia.
    + rewrite <- I1 at 1.
      apply daysAgo_le; [apply near_in_range | apply near_in_range |];
        rewrite ?Day_value in *; lia.
  - assert (E : Z.quot d Day = - k
                /\ - (k * Day + (Day - 1)) <= d <= - (k * Day)).
    { unfold k. rewrite Day_value. Z.quot_rem_to_equations. lia. }
    destruct E as [E [L U]]. rewrite E.
    apply Z.le_antisymm.
    + rewrite <- I3.
      apply daysAgo_le; [apply near_in_range | apply near_in_range |];
        rewrite ?Day_value in *; lia.
    + rewrite <- I4 at 1.
      apply daysAgo_le; [apply near_in_range | apply near_in_range |];
        rewrite ?Day_value in *; lia.
Qed.

(** Beyond that range the count is at least 170 in magnitude. *)
Lemma daysAgo_far (d : Duration) :
  in_range d -> 170 * Day <= d -> 170 <= daysAgo d.
Proof.
  intros Hd H.
  change 170 with (daysAgo (170 * Day)) at 1.
  apply daysAgo_le; [| exact Hd | exact H].
  apply near_in_range. rewrite Day_value. lia.
Qed.

Lemma daysAgo_far_neg (d : Duration) :
  in_range d -> d <= - (170 * Day) -> daysAgo d <= - 170.
Proof.
  intros Hd H.
  change (- 170) with (daysAgo (- (170 * Day))).
  apply daysAgo_le; [exact Hd | | exact H].
  apply near_in_range. rewrite Day_value. lia.
Qed.
(** Whole hours and whole days are computed exactly. *)
Lemma Hours_whole (h : Z) :
  Z.abs h < 2 ^ prec -> Qeq (Hours (h * Hour)) (inject_Z h).
Proof.
  intros Hh. unfold Hours.
  rewrite Z.quot_mul, Z.rem_mul by discriminate.
  change (F64.div (of_int 0) (of_int (60 * 60 * 10 ^ 9))) with (frac 0).
  assert (E : Qeq (frac 0) 0) by (vm_compute; reflexivity).
  rewrite E, (of_int_exact h Hh). unfold add.
  rewrite Qplus_0_r. apply (of_int_exact h Hh).
Qed.

Lemma daysAgo_whole (k : Z) : in_range (k * Day) -> daysAgo (k * Day) = k.
Proof.
  intros R.
  assert (Hk : Z.abs (24 * k) < 2 ^ prec).
  { unfold in_range, minDuration, maxDuration in R.
    rewrite Day_value in R. unfold prec. lia. }
  unfold daysAgo. replace (k * Day) with (24 * k * Hour) by (unfold Day; ring).
  rewrite <- (to_int_inject k) at 2. apply to_int_eq.
  rewrite (Hours_whole (24 * k) Hk).
  assert (E : Qeq (of_int 24) (inject_Z 24)) by (vm_compute; reflexivity).
  rewrite E. unfold F64.div.
  assert (E' : Qeq (inject_Z (24 * k) / inject_Z 24) (inject_Z k)).
  { rewrite inject_Z_mult. field. }
  rewrite E'. apply (of_int_exact k). lia.
Qed.

(** So [daysAgo] is the exact count of whole days, or one more day
    away from zero. *)
Lemma daysAgo_near (d : Duration) :
  in_range d ->
  (0 <= d -> Z.quot d Day <= daysAgo d <= Z.quot d Day + 1)
  /\ (d <= 0 -> Z.quot d Day - 1 <= daysAgo d <= Z.quot d Day).
Proof.
  intros R. pose proof R as R'.
  unfold in_range, minDuration, maxDuration in R'.
  set (q := Z.quot d Day).
  assert (Emax : daysAgo maxDuration = 106751) by (vm_compute; reflexivity).
  assert (Emin : daysAgo minDuration = - 106751) by (vm_compute; reflexivity).
  assert (Rmax : in_range maxDuration) by (split; vm_compute; discriminate).
  assert (Rmin : in_range minDuration) by (split; vm_compute; discriminate).
  assert (W : forall k, - 106751 <= k <= 106751 -> in_range (k * Day)).
  { intros k Hk. unfold in_range, minDuration, maxDuration.
    rewrite Day_value. lia. }
  split; intros S.
  - assert (Hq : 0 <= q <= 106751 /\ q * Day <= d < (q + 1) * Day).
    { unfold q. rewrite Day_value. Z.quot_rem_to_equations. lia. }
    destruct Hq as [Hq [L U]]. split.
    + rewrite <- (daysAgo_whole q) at 1 by (apply W; lia).
      apply daysAgo_le; [apply W; lia | exact R | exact L].
    + destruct (Z.eq_dec q 106751) as [-> | N].
      * apply Z.le_trans with (daysAgo maxDuration); [| rewrite Emax; lia].
        apply daysAgo_le; [exact R | exact Rmax | apply R].
      * rewrite <- (daysAgo_whole (q + 1)) by (apply W; lia).
        apply daysAgo_le; [exact R | apply W; lia | lia].
  - assert (Hq : - 106751 <= q <= 0 /\ (q - 1) * Day < d <= q * Day).
    { unfold q. rewrite Day_value. Z.quot_rem_to_equations. lia. }
    destruct Hq as [Hq [L U]]. split.
    + destruct (Z.eq_dec q (- 106751)) as [-> | N].
      * apply Z.le_trans with (daysAgo minDuration); [rewrite Emin; lia |].
        apply daysAgo_le; [exact Rmin | exact R | apply R].
      * rewrite <- (daysAgo_whole (q - 1)) by (apply W; lia).
        apply daysAgo_le; [apply W; lia | exact R | lia].
    + rewrite <- (daysAgo_whole q) by (apply W; lia).
      apply daysAgo_le; [exact R | apply W; lia | exact U].
Qed.

End TimeFacts.

(* ================================================================= *)
(** ** binary64: the model against the processor *)

(** On every sample the rounding of [F64] gives the float the
    processor computes, among them 171 days less a nanosecond, where
    the sum in [Hours] rounds up to 4104 hours. *)
Lemma binary64_agrees :
  forallb Binary64.agrees Binary64.samples = true.
Proof. vm_compute. reflexivity. Qed.

(* ================================================================= *)
(** ** Scoring *)

Import TimeFacts.

(** Case analysis on the threshold comparisons in the goal, one at a
    time, dropping the impossible combinations as they come up. *)
Ltac cases_leb :=
  repeat (match goal with
          | |- context [?a <=? ?b] =>
              lazymatch a with
              | context [if _ then _ else _] => fail
              | _ => destruct (Z.leb_spec a b)
              end
          | |- context [?a <? ?b] =>
              lazymatch a with
              | context [if _ then _ else _] => fail
              | _ => destruct (Z.ltb_spec a b)
              end
          end; cbn [andb]; try lia).

(** [mastery] in one equation: the early return, or else the tables
    of the specification on the count and on the days elapsed at the
    one reading of the clock. *)
Lemma mastery_eq (timesDone : Z) (lastDone : Time) (w : world) :
  mastery timesDone lastDone w =
  if timesDone <=? 0 then (0, w)
  else (Z.max 0 (spec_base timesDone
                 - spec_decay (daysAgo (Sub (wall w) lastDone))),
        log ClockRead w).
Proof.
  unfold mastery, Since, Now, spec_base, spec_decay.
  generalize (daysAgo (Sub (wall w) lastDone)). intros n.
  destruct (Z.leb_spec timesDone 0); [reflexivity |].
  f_equal. cases_leb.
Qed.

Lemma spec_base_range (t : Z) : 0 <= spec_base t <= 5.
Proof. unfold spec_base. cases_leb. Qed.

Lemma spec_base_le (t t' : Z) : t <= t' -> spec_base t <= spec_base t'.
Proof. unfold spec_base. intros H. cases_leb. Qed.

Lemma spec_decay_range (n : Z) : 0 <= spec_decay n <= 3.
Proof. unfold spec_decay. cases_leb. Qed.

Lemma spec_decay_le (n n' : Z) : n <= n' -> spec_decay n <= spec_decay n'.
Proof. unfold spec_decay. intros H. cases_leb. Qed.

Lemma level_range (timesDone : Z) (lastDone : Time) (w : world) :
  0 <= fst (mastery timesDone lastDone w) <= 5.
Proof.
  rewrite mastery_eq.
  pose proof (spec_base_range timesDone).
  pose proof (spec_decay_range (daysAgo (Sub (wall w) lastDone))).
  destruct (timesDone <=? 0); cbn [fst]; lia.
Qed.

(** The scenarios of the specification, on a day [a_day]. *)
Example scenarios :
  fst (mastery 0 zeroTime (clock_at a_day)) = 0
  /\ fst (mastery 1 a_day (clock_at a_day)) = 1
  /\ fst (mastery 5 (a_day - 2 * Day) (clock_at a_day)) = 2
  /\ fst (mastery 10 (a_day - 10 * Day) (clock_at a_day)) = 2
  /\ fst (mastery 20 (a_day - 30 * Day) (clock_at a_day)) = 2
  /\ fst (mastery 3 (a_day - 20 * Day) (clock_at a_day)) = 0
  /\ Mastery_String 2 = "++"%string
  /\ Format_date 0 a_day = "2024-10-04"%string.
Proof. vm_compute. repeat split. Qed.

(** Whatever the elapsed time, the decay is the one of the exact
    count of whole days: where [daysAgo] is off by one, both counts
    are far past the last threshold. *)
Lemma spec_decay_daysAgo (d : Duration) :
  in_range d -> spec_decay (daysAgo d) = spec_decay (Z.quot d Day).
Proof.
  intros Hd.
  destruct (Z.lt_ge_cases (Z.abs d) (170 * Day)) as [N | F].
  - rewrite daysAgo_exact by exact N. reflexivity.
  - destruct (Z.le_gt_cases 0 d) as [P | P].
    + pose proof (daysAgo_far d Hd ltac:(lia)) as H.
      assert (170 <= Z.quot d Day).
      { rewrite Day_value in *. Z.quot_rem_to_equations. lia. }
      unfold spec_decay. cases_leb.
    + pose proof (daysAgo_far_neg d Hd ltac:(lia)) as H.
      assert (Z.quot d Day <= - 170).
      { rewrite Day_value in *. Z.quot_rem_to_equations. lia. }
      unfold spec_decay. cases_leb.
Qed.

(** A completion in the future counts no whole day. *)
Lemma daysAgo_future (now lastDone : Time) :
  now < lastDone -> daysAgo (Sub now lastDone) <= 0.
Proof.
  intros Hf.
  assert (E0 : daysAgo (- 1) = 0) by (vm_compute; reflexivity).
  rewrite <- E0.
  apply daysAgo_le; [apply Sub_in_range | apply near_in_range |].
  - rewrite Day_value. lia.
  - unfold Sub, minDuration, maxDuration. cases_leb.
Qed.

(* ================================================================= *)
(** ** Marking a kata done *)

(** The test [markDone] makes on the completions is the test of
    their final entry. *)
Lemma last_check (today : string) (done : list string) :
  (0 <? List.length done)%nat
  && String.eqb (nth (List.length done - 1) done EmptyString) today = true
  <-> last_is today done.
Proof.
  unfold last_is. rewrite andb_true_iff, Nat.ltb_lt, String.eqb_eq.
  split.
  - intros [Hl Hn].
    destruct (exists_last (l := done)) as (earlier & x & E).
    { intros ->. simpl in Hl. lia. }
    exists earlier. subst done. f_equal. f_equal.
    rewrite length_app, Nat.add_sub in Hn. cbn [List.length] in Hn.
    rewrite nth_middle in Hn. congruence.
  - intros [earlier ->]. rewrite length_app. cbn [List.length].
    split; [lia |]. rewrite Nat.add_sub. apply nth_middle.
Qed.

Lemma update_middle {A} (f : A -> A) (l1 : list A) (x : A) (l2 : list A) :
  update (List.length l1) f (l1 ++ x :: l2) = l1 ++ f x :: l2.
Proof. induction l1 as [| y l1 IH]; simpl; [| rewrite IH]; reflexivity. Qed.

(** The first kata called [name], with the katas before and after
    it. *)
Lemma find_named_split (name : string) (ks : list kata) (x : kata) :
  find (named name) ks = Some x ->
  exists l1 l2, ks = l1 ++ x :: l2 /\ Name x = name
                /\ forall y, In y l1 -> Name y <> name.
Proof.
  induction ks as [| y ks IH]; simpl; [discriminate |].
  destruct (named name y) eqn:N.
  - intros [= ->]. exists [], ks. split; [reflexivity |].
    split; [apply String.eqb_eq, N | intros y []].
  - intros F. destruct (IH F) as (l1 & l2 & -> & Hx & Hl).
    exists (y :: l1), l2. split; [reflexivity |]. split; [exact Hx |].
    intros z [<- | Hz]; [apply String.eqb_neq, N | apply Hl, Hz].
Qed.

Lemma mark_split (name today : string) (l1 : list kata) (x : kata)
      (l2 : list kata) :
  Name x = name -> (forall y, In y l1 -> Name y <> name) ->
  mark name today (l1 ++ x :: l2) = l1 ++ done_today x today :: l2.
Proof.
  intros Hx Hl. induction l1 as [| y l1 IH]; simpl.
  - unfold named. rewrite (proj2 (String.eqb_eq _ _) Hx). reflexivity.
  - unfold named at 1.
    rewrite (proj2 (String.eqb_neq _ _) (Hl y (or_introl eq_refl))).
    rewrite IH; [reflexivity |]. intros z Hz. apply Hl. right. exact Hz.
Qed.

Section MarkDone.

Variable yaml_Marshal : list kata -> filedata + error.
Variables name today : string.

(** What the loop does, from any point on: [visited] are the katas
    already passed. *)
Lemma markDone_range_spec (rest visited : list kata) (s : state) :
  k_katas (self s) = visited ++ rest ->
  markDone_range yaml_Marshal name today (List.length visited) rest s =
  match find (named name) rest with
  | None => (Err (not_found name (self s)), s)
  | Some x =>
      if (0 <? List.length (Done x))%nat
         && String.eqb (nth (List.length (Done x) - 1) (Done x) EmptyString)
                       today
      then (Err (already_done name), s)
      else save yaml_Marshal
                (mkState (mkKatas (filePath (self s))
                                  (visited ++ mark name today rest))
                         (env s))
  end.
Proof.
  revert visited. induction rest as [| y rest IH]; intros visited E.
  - reflexivity.
  - cbn [markDone_range find mark].
    change (named name y) with (String.eqb (Name y) name).
    destruct (String.eqb (Name y) name) eqn:N.
    + destruct (_ && _); [reflexivity |].
      cbv beta iota delta [bind set_Done get_self set_katas].
      cbn [self env].
      rewrite E, update_middle. reflexivity.
    + specialize (IH (visited ++ [y])).
      rewrite length_app, Nat.add_1_r, <- !app_assoc in IH.
      apply IH, E.
Qed.

(** [save], spelled out. *)
Lemma save_eq (s : state) :
  save yaml_Marshal s =
  let path := filePath (self s) in
  match yaml_Marshal (k_katas (self s)) with
  | inr err => (Err (Wrap "marshaling katas: " err), s)
  | inl data =>
      match write_fault (env s) with
      | None =>
          (Ok tt, mkState (self s)
                    (log (FileWrite path data) (store path (Some data) (env s))))
      | Some r =>
          (Err (PathError "open" path),
           mkState (self s) (log (FileWrite path data) (store path r (env s))))
      end
  end.
Proof.
  cbv beta iota zeta delta [save bind get_self io WriteFile raise ret].
  destruct (yaml_Marshal (k_katas (self s))); [| reflexivity].
  destruct (write_fault (env s)); reflexivity.
Qed.

(** [markDone] on a file that loads, up to the loop. *)
Lemma markDone_loaded (k : katas) (w : world) (ks : list kata) :
  disk w (filePath k) = Some (Encoded ks) ->
  today = Format_date (zone w) (wall w) ->
  markDone yaml_Marshal name (mkState k w) =
  markDone_range yaml_Marshal name today 0 ks
    (mkState (mkKatas (filePath k) ks)
             (log ClockRead (log (FileRead (filePath k)) w))).
Proof.
  intros D ->.
  cbv beta iota zeta delta
    [markDone load bind get_self io ReadFile today_date Now set_katas ret
     yaml_Unmarshal self env].
  rewrite D. reflexivity.
Qed.

End MarkDone.

(** [markDone] on a file that loads: not found, already done today,
    or saved with today appended. *)
Lemma markDone_outcome (yaml_Marshal : list kata -> filedata + error)
      (name : string) (k : katas) (w : world) (ks : list kata) :
  disk w (filePath k) = Some (Encoded ks) ->
  let today := Format_date (zone w) (wall w) in
  let loaded :=
    mkState (mkKatas (filePath k) ks)
            (log ClockRead (log (FileRead (filePath k)) w)) in
  markDone yaml_Marshal name (mkState k w) =
  match find (named name) ks with
  | None => (Err (not_found name (self loaded)), loaded)
  | Some x =>
      if (0 <? List.length (Done x))%nat
         && String.eqb (nth (List.length (Done x) - 1) (Done x) EmptyString)
                       today
      then (Err (already_done name), loaded)
      else save yaml_Marshal
                (mkState (mkKatas (filePath k) (mark name today ks))
                         (env loaded))
  end.
Proof.
  intros D today loaded.
  rewrite (markDone_loaded yaml_Marshal name today k w ks D eq_refl).
  apply (markDone_range_spec yaml_Marshal name today ks [] loaded). reflexivity.
Qed.

(** A file that does not load: [markDone] returns the error of
    [load] and writes nothing. *)
Lemma markDone_unloaded (yaml_Marshal : list kata -> filedata + error)
      (name : string) (k : katas) (w : world) :
  (forall ks, disk w (filePath k) <> Some (Encoded ks)) ->
  failed (fst (markDone yaml_Marshal name (mkState k w)))
  /\ disk (env (snd (markDone yaml_Marshal name (mkState k w)))) = disk w
  /\ writes (env (snd (markDone yaml_Marshal name (mkState k w)))) = writes w.
Proof.
  intros D.
  cbv beta iota zeta delta
    [markDone load bind get_self io ReadFile today_date Now set_katas ret
     raise yaml_Unmarshal self env].
  destruct (disk w (filePath k)) as [[ks | partial] |] eqn:E.
  - destruct (D ks). reflexivity.
  - cbn. repeat split. eexists. reflexivity.
  - cbn. repeat split. eexists. reflexivity.
Qed.

(** [markDone] on a file that loads, when [save] is reached: the
    outcome is that of the encoder and of the write. *)
Lemma markDone_saving (yaml_Marshal : list kata -> filedata + error)
      (name : string) (k : katas) (w : world) (ks : list kata) (x : kata) :
  disk w (filePath k) = Some (Encoded ks) ->
  find (named name) ks = Some x ->
  let today := Format_date (zone w) (wall w) in
  ~ last_is today (Done x) ->
  let path := filePath k in
  let saved := mkKatas path (mark name today ks) in
  let w1 := log ClockRead (log (FileRead path) w) in
  markDone yaml_Marshal name (mkState k w) =
  match yaml_Marshal (mark name today ks) with
  | inr err => (Err (Wrap "marshaling katas: " err), mkState saved w1)
  | inl data =>
      match write_fault w with
      | None =>
          (Ok tt, mkState saved
                    (log (FileWrite path data) (store path (Some data) w1)))
      | Some r =>
          (Err (PathError "open" path),
           mkState saved (log (FileWrite path data) (store path r w1)))
      end
  end.
Proof.
  intros D F today L path saved w1.
  pose proof (markDone_outcome yaml_Marshal name k w ks D) as O.
  cbv zeta in O. rewrite O, F. clear O.
  destruct (_ && _) eqn:C; [apply last_check in C; contradiction |].
  rewrite save_eq. reflexivity.
Qed.

(* ================================================================= *)
(** ** Properties of the scoring function *)

(** C1.  Whatever the count of completions (negative ones included),
    whatever the last completion (the zero Time, which stands for none
    or for dates that did not parse, included) and whatever the clock
    reads, the level [mastery] returns lies between 0 and 5. *)
Theorem mastery_range (timesDone : Z) (lastDone : Time) (w : world) :
  0 <= fst (mastery timesDone lastDone w) <= 5.
Proof.
  rewrite mastery_eq.
  pose proof (spec_base_range timesDone) as B.
  pose proof (spec_decay_range (daysAgo (Sub (wall w) lastDone))) as D.
  destruct (Z.leb_spec timesDone 0); cbn [fst]; lia.
Qed.

(** C2.  For a count of at least 1, the level is
    [max 0 (base - decay)], with [base] the step function of the
    specification on the count and [decay] its step function on the
    whole days between the last completion and the reading of the
    clock. *)
Theorem mastery_base_minus_decay
        (timesDone : Z) (lastDone : Time) (w : world) :
  1 <= timesDone ->
  fst (mastery timesDone lastDone w) =
  Z.max 0 (spec_base timesDone
           - spec_decay (daysAgo (Sub (wall w) lastDone))).
Proof.
  intros H. rewrite mastery_eq.
  destruct (Z.leb_spec timesDone 0); [lia | reflexivity].
Qed.

(** Ten completions, the last one ten days ago: base 4, decay 2. *)
Lemma mastery_base_minus_decay_witness :
  1 <= 10 /\ fst (mastery 10 (a_day - 10 * Day) (clock_at a_day)) = 2.
Proof.
  split; [lia |].
  exact (mastery_base_minus_decay 10 (a_day - 10 * Day) (clock_at a_day)
           ltac:(lia)).
Defined.

(** C3.  For a count of 0 or less, [mastery] returns 0 whatever the
    last completion and the clock, and returns the world as it found
    it: the clock is not read, so no decay is computed. *)
Theorem mastery_zero (timesDone : Z) (lastDone : Time) (w : world) :
  timesDone <= 0 -> mastery timesDone lastDone w = (0, w).
Proof.
  intros H. unfold mastery.
  destruct (Z.leb_spec timesDone 0); [reflexivity | lia].
Qed.

(** No completion, hence the zero Time for the last one. *)
Lemma mastery_zero_witness :
  0 <= 0 /\ mastery 0 zeroTime (clock_at a_day) = (0, clock_at a_day).
Proof.
  split; [lia |].
  exact (mastery_zero 0 zeroTime (clock_at a_day) ltac:(lia)).
Defined.

(** C4, as stated, fails: 171 days less a nanosecond after the last
    completion, [daysAgo] is 171 and the truncated quotient of the
    elapsed time by 24 hours is 170.  The elapsed time is 4103 hours
    and 3599999999999 nanoseconds; from 4096 on the floats are 2^-40
    apart (3.3 nanoseconds, counted in hours), so the sum in [Hours],
    a nanosecond short of 4104, rounds to 4104.0, and 4104.0 / 24 is
    171.0 exactly. *)
Lemma daysAgo_not_truncated_quotient :
  daysAgo (Sub (171 * Day - 1) zeroTime) = 171
  /\ Z.quot (Sub (171 * Day - 1) zeroTime) Day = 170.
Proof. split; vm_compute; reflexivity. Qed.

(** C4, amended.  For every elapsed time a Duration can hold,
    [daysAgo] is the quotient of the elapsed time by 24 hours,
    truncated towards zero, or else, and only from 170 days on in
    either direction, one day further from zero than that; and in
    every case the decay bracket of [daysAgo] is the one of the
    truncated quotient. *)
Theorem daysAgo_truncates (d : Duration) :
  in_range d ->
  (daysAgo d = Z.quot d Day
   \/ (170 * Day <= Z.abs d /\ daysAgo d = Z.quot d Day + Z.sgn d))
  /\ spec_decay (daysAgo d) = spec_decay (Z.quot d Day).
Proof.
  intros Hd. split; [| apply spec_decay_daysAgo, Hd].
  destruct (Z.lt_ge_cases (Z.abs d) (170 * Day)) as [N | F].
  - left. apply daysAgo_exact, N.
  - rewrite Day_value in F.
    destruct (daysAgo_near d Hd) as [P M].
    destruct (Z.le_gt_cases 0 d) as [S | S].
    + specialize (P S).
      destruct (Z.eq_dec (daysAgo d) (Z.quot d Day)) as [E | E];
        [left; exact E | right].
      rewrite Day_value at 1. split; [exact F | lia].
    + specialize (M ltac:(lia)).
      destruct (Z.eq_dec (daysAgo d) (Z.quot d Day)) as [E | E];
        [left; exact E | right].
      rewrite Day_value at 1. split; [exact F | lia].
Qed.

(** 71 hours are 2 days, not 3. *)
Lemma daysAgo_truncates_witness :
  in_range (71 * Hour) /\ daysAgo (71 * Hour) = 2.
Proof.
  assert (R : in_range (71 * Hour)) by (split; vm_compute; discriminate).
  split; [exact R |].
  destruct (daysAgo_truncates (71 * Hour) R) as [[E | [F _]] _].
  - exact E.
  - exfalso. apply F. reflexivity.
Defined.

(** C5.  For a count of at least 1 and a last completion later than
    the clock reads, the day count is zero or negative, the decay is
    0, and the level is the base level of the count. *)
Theorem mastery_future (timesDone : Z) (lastDone : Time) (w : world) :
  1 <= timesDone -> wall w < lastDone ->
  daysAgo (Sub (wall w) lastDone) <= 0
  /\ spec_decay (daysAgo (Sub (wall w) lastDone)) = 0
  /\ fst (mastery timesDone lastDone w) = spec_base timesDone.
Proof.
  intros Ht Hf.
  pose proof (daysAgo_future (wall w) lastDone Hf) as H.
  assert (E : spec_decay (daysAgo (Sub (wall w) lastDone)) = 0).
  { unfold spec_decay. cases_leb. }
  split; [exact H |]. split; [exact E |].
  rewrite mastery_eq. destruct (Z.leb_spec timesDone 0); [lia |].
  cbn [fst]. rewrite E.
  pose proof (spec_base_range timesDone). lia.
Qed.

(** Three completions, the last one dated ten days ahead. *)
Lemma mastery_future_witness :
  1 <= 3 /\ wall (clock_at a_day) < a_day + 10 * Day
  /\ daysAgo (Sub (wall (clock_at a_day)) (a_day + 10 * Day)) <= 0
  /\ spec_decay (daysAgo (Sub (wall (clock_at a_day)) (a_day + 10 * Day))) = 0
  /\ fst (mastery 3 (a_day + 10 * Day) (clock_at a_day)) = spec_base 3.
Proof.
  split; [lia |]. split; [reflexivity |].
  apply (mastery_future 3 (a_day + 10 * Day) (clock_at a_day));
    [lia | reflexivity].
Defined.

(** C6.  For a count above 0 and a fixed last completion, the level
    does not increase as the clock moves on. *)
Theorem mastery_decays
        (timesDone : Z) (lastDone : Time) (w1 w2 : world) :
  0 < timesDone -> wall w1 <= wall w2 ->
  fst (mastery timesDone lastDone w2) <= fst (mastery timesDone lastDone w1).
Proof.
  intros Ht Hw. rewrite !mastery_eq.
  destruct (Z.leb_spec timesDone 0); [lia |]. cbn [fst].
  assert (spec_decay (daysAgo (Sub (wall w1) lastDone))
          <= spec_decay (daysAgo (Sub (wall w2) lastDone))); [| lia].
  apply spec_decay_le, daysAgo_le; try apply Sub_in_range.
  apply Sub_le, Hw.
Qed.

(** Ten completions, looked at on the day of the last one and ten
    days later. *)
Lemma mastery_decays_witness :
  0 < 10 /\ wall (clock_at a_day) <= wall (clock_at (a_day + 10 * Day))
  /\ fst (mastery 10 a_day (clock_at (a_day + 10 * Day)))
     <= fst (mastery 10 a_day (clock_at a_day)).
Proof.
  split; [lia |]. split; [vm_compute; discriminate |].
  apply (mastery_decays 10 a_day (clock_at a_day)
           (clock_at (a_day + 10 * Day))); [lia | vm_compute; discriminate].
Defined.

(** C7.  For a fixed last completion and clock, the level does not
    decrease as the count grows from 0 on. *)
Theorem mastery_grows (t1 t2 : Z) (lastDone : Time) (w : world) :
  0 <= t1 <= t2 ->
  fst (mastery t1 lastDone w) <= fst (mastery t2 lastDone w).
Proof.
  intros [H1 H2]. rewrite !mastery_eq.
  pose proof (spec_base_le t1 t2 H2).
  pose proof (spec_base_range t2).
  destruct (Z.leb_spec t1 0); destruct (Z.leb_spec t2 0); cbn [fst]; lia.
Qed.

(** Two completions against six, the last one the day before. *)
Lemma mastery_grows_witness :
  0 <= 2 <= 6
  /\ fst (mastery 2 (a_day - Day) (clock_at a_day))
     <= fst (mastery 6 (a_day - Day) (clock_at a_day)).
Proof.
  split; [lia |].
  apply (mastery_grows 2 6 (a_day - Day) (clock_at a_day)). lia.
Defined.

(** C8.  [String] renders the levels 0 to 5 as that many plus signs
    and any other level as the empty string; so the rendering of what
    [mastery] returns is as long as the level is high. *)
Theorem Mastery_String_length :
  (Mastery_String 0 = EmptyString /\ Mastery_String 1 = "+"
   /\ Mastery_String 2 = "++" /\ Mastery_String 3 = "+++"
   /\ Mastery_String 4 = "++++" /\ Mastery_String 5 = "+++++")%string
  /\ (forall m : Mastery,
        Mastery_String m =
        if (0 <=? m) && (m <=? 5) then plus_signs (Z.to_nat m)
        else EmptyString)
  /\ (forall (timesDone : Z) (lastDone : Time) (w : world),
        Z.of_nat (String.length
                    (Mastery_String (fst (mastery timesDone lastDone w))))
        = fst (mastery timesDone lastDone w)).
Proof.
  assert (T : forall m : Mastery,
             Mastery_String m =
             if (0 <=? m) && (m <=? 5) then plus_signs (Z.to_nat m)
             else EmptyString).
  { intros m. unfold Mastery_String. rewrite Z.geb_leb.
    change (Z.of_nat (List.length levels)) with 6.
    destruct (Z.ltb_spec m 0); destruct (Z.leb_spec 0 m); try lia;
      cbn [orb andb]; [reflexivity |].
    destruct (Z.leb_spec 6 m); destruct (Z.leb_spec m 5); try lia;
      [reflexivity |].
    assert (C : m = 0 \/ m = 1 \/ m = 2 \/ m = 3 \/ m = 4 \/ m = 5) by lia.
    destruct C as [-> | [-> | [-> | [-> | [-> | ->]]]]]; reflexivity. }
  split; [repeat split |]. split; [exact T |].
  intros timesDone lastDone w.
  pose proof (level_range timesDone lastDone w) as R.
  revert R. generalize (fst (mastery timesDone lastDone w)). intros m R.
  rewrite T.
  assert (C : m = 0 \/ m = 1 \/ m = 2 \/ m = 3 \/ m = 4 \/ m = 5) by lia.
  destruct C as [-> | [-> | [-> | [-> | [-> | ->]]]]]; reflexivity.
Qed.

(** C9, as stated, fails: [mastery] is declared with two inputs, the
    count and the last completion, and reads the clock itself; on the
    same two inputs it returns 1 when the clock reads the time of the
    last completion and 0 thirty days later. *)
Lemma mastery_reads_clock :
  fst (mastery 1 a_day (clock_at a_day)) = 1
  /\ fst (mastery 1 a_day (clock_at (a_day + 30 * Day))) = 0.
Proof. split; vm_compute; reflexivity. Qed.

(** C9, amended.  The level is a function of the count, the last
    completion and what the clock reads when [mastery] runs: in two
    worlds whose clocks read the same, the same count and last
    completion give the same level; and all [mastery] does to the
    world is to read its clock, at most once. *)
Theorem mastery_deterministic
        (timesDone : Z) (lastDone : Time) (w1 w2 : world) :
  wall w1 = wall w2 ->
  fst (mastery timesDone lastDone w1) = fst (mastery timesDone lastDone w2)
  /\ (snd (mastery timesDone lastDone w1) = w1
      \/ snd (mastery timesDone lastDone w1) = log ClockRead w1).
Proof.
  intros H. rewrite !mastery_eq, H.
  destruct (timesDone <=? 0); cbn [fst snd]; auto.
Qed.

(** The same clock over different files. *)
Lemma mastery_deterministic_witness :
  wall (clock_at a_day) = wall (world_with [hello []] None)
  /\ fst (mastery 3 (a_day - 5 * Day) (clock_at a_day))
     = fst (mastery 3 (a_day - 5 * Day) (world_with [hello []] None)).
Proof.
  split; [reflexivity |].
  apply (mastery_deterministic 3 (a_day - 5 * Day) (clock_at a_day)
           (world_with [hello []] None)). reflexivity.
Defined.

(* ================================================================= *)
(** ** Properties of [markDone] *)

(** C10, as stated, fails: the file holds a kata [hello] never done,
    and cannot be written.  [markDone] returns the error of [save],
    though a kata has the name and its completions do not end with
    today; and [save] was called. *)
Lemma markDone_save_failure :
  let ks := [hello []] in
  let out :=
    markDone plain_Marshal "hello"
             (mkState home (world_with ks (Some (Some (Encoded ks))))) in
  fst out = Err (PathError "open" (filePath home))
  /\ find (named "hello") ks = Some (hello [])
  /\ Done (hello []) = []
  /\ writes (env (snd out)) = 1%nat.
Proof. vm_compute. repeat split. Qed.

(** C10, amended.  When the file of katas loads, [markDone name]
    returns an error exactly when no kata has the name, or the
    completions of the first kata with the name end with today's date,
    or the [save] it then attempts fails, in the encoder or in the
    write.  In the first two cases the files are as before and nothing
    was written.  When it returns no error, the first kata with the
    name has today's date appended to its completions, all else in the
    list is as it was, and the file holds what [yaml.Marshal] made of
    that list.  Only the final completion is compared with today:
    when it differs, the list encodes and the file can be written,
    there is no error. *)
Theorem markDone_contract (yaml_Marshal : list kata -> filedata + error)
        (name : string) (k : katas) (w : world) (ks : list kata) :
  disk w (filePath k) = Some (Encoded ks) ->
  let today := Format_date (zone w) (wall w) in
  let r := fst (markDone yaml_Marshal name (mkState k w)) in
  let s' := snd (markDone yaml_Marshal name (mkState k w)) in
  let missing := find (named name) ks = None in
  let repeated :=
    exists x, find (named name) ks = Some x /\ last_is today (Done x) in
  let unsaved :=
    (exists err, yaml_Marshal (mark name today ks) = inr err)
    \/ write_fault w <> None in
  (failed r <-> missing \/ repeated \/ (~ missing /\ ~ repeated /\ unsaved))
  /\ (missing \/ repeated ->
      disk (env s') = disk w /\ writes (env s') = writes w)
  /\ (r = Ok tt ->
      exists l1 x l2 data,
        ks = l1 ++ x :: l2 /\ Name x = name
        /\ (forall y, In y l1 -> Name y <> name)
        /\ k_katas (self s') = l1 ++ done_today x today :: l2
        /\ yaml_Marshal (l1 ++ done_today x today :: l2) = inl data
        /\ disk (env s') (filePath k) = Some data)
  /\ (forall x data,
        find (named name) ks = Some x -> ~ last_is today (Done x) ->
        yaml_Marshal (mark name today ks) = inl data ->
        write_fault w = None -> r = Ok tt).
Proof.
  intros D today r s' missing repeated unsaved.
  subst r s' missing repeated unsaved.
  destruct (find (named name) ks) as [x |] eqn:F.
  - pose proof (last_check today (Done x)) as L.
    destruct (_ && _) eqn:C in L.
    + (* already done today *)
      assert (Lx : last_is today (Done x)) by (apply L; reflexivity).
      pose proof (markDone_outcome yaml_Marshal name k w ks D) as O.
      cbv zeta in O. fold today in O. rewrite F, C in O.
      rewrite O. cbn [fst snd env self].
      split; [| split; [| split]].
      * split; [| intros _; eexists; reflexivity].
        intros _. right. left. exists x. auto.
      * intros _. split; reflexivity.
      * discriminate.
      * intros y data [= <-] N. contradiction.
    + assert (Lx : ~ last_is today (Done x)).
      { intros N. apply L in N. discriminate. }
      assert (R : ~ exists y, Some x = Some y /\ last_is today (Done y)).
      { intros (y & [= <-] & N). contradiction. }
      rewrite (markDone_saving yaml_Marshal name k w ks x D F Lx).
      fold today.
      destruct (find_named_split name ks x F) as (l1 & l2 & E & Hx & Hl).
      destruct (yaml_Marshal (mark name today ks)) as [data | err] eqn:Y;
        [destruct (write_fault w) as [res |] eqn:W |];
        cbn [fst snd env self k_katas].
      * (* the file cannot be written *)
        split; [| split; [| split]].
        -- split; [| intros _; eexists; reflexivity].
           intros _. right. right.
           repeat split; [discriminate | exact R | right; discriminate].
        -- intros [N | N]; [discriminate | contradiction].
        -- discriminate.
        -- discriminate.
      * (* saved *)
        split; [| split; [| split]].
        -- split; [intros [e N]; discriminate |].
           intros [N | [N | (_ & _ & [[e N] | N])]];
             [discriminate | contradiction | discriminate | contradiction].
        -- intros [N | N]; [discriminate | contradiction].
        -- intros _. exists l1, x, l2, data.
           rewrite E, (mark_split name today l1 x l2 Hx Hl) in Y |- *.
           repeat split; try assumption. cbn [log store disk].
           rewrite String.eqb_refl. reflexivity.
        -- reflexivity.
      * (* the list does not encode *)
        split; [| split; [| split]].
        -- split; [| intros _; eexists; reflexivity].
           intros _. right. right.
           repeat split; [discriminate | exact R | left; exists err; reflexivity].
        -- intros [N | N]; [discriminate | contradiction].
        -- discriminate.
        -- discriminate.
  - (* no kata has the name *)
    pose proof (markDone_outcome yaml_Marshal name k w ks D) as O.
    cbv zeta in O. rewrite F in O.
    rewrite O. cbn [fst snd env self].
    split; [| split; [| split]].
    + split; [intros _; left; reflexivity | intros _; eexists; reflexivity].
    + intros _. split; reflexivity.
    + discriminate.
    + discriminate.
Qed.

(** A kata done today and again, by its file, three days before
    today: today's date is there but not last, and [markDone]
    succeeds. *)
Lemma markDone_contract_witness :
  let ks := [hello ["2024-10-04"; "2024-10-01"]]%string in
  disk (world_with ks None) (filePath home) = Some (Encoded ks)
  /\ fst (markDone plain_Marshal "hello" (mkState home (world_with ks None)))
     = Ok tt.
Proof.
  intros ks. split; [reflexivity |].
  refine (proj2 (proj2 (proj2
            (markDone_contract plain_Marshal "hello" home (world_with ks None)
                               ks eq_refl)))
            (hello ["2024-10-04"; "2024-10-01"]%string) _ eq_refl _ eq_refl
            eq_refl).
  intros N. apply last_check in N. vm_compute in N. discriminate.
Defined.

(* ================================================================= *)
(** ** Further properties: scoring *)

(** No decay up to four days less a nanosecond, to the nanosecond. *)
Lemma no_decay_iff (now lastDone : Time) :
  spec_decay (daysAgo (Sub now lastDone)) = 0 <-> now - lastDone < 4 * Day.
Proof.
  rewrite spec_decay_daysAgo by apply Sub_in_range.
  assert (Q : Z.quot (Sub now lastDone) Day <= 3 <-> now - lastDone < 4 * Day).
  { unfold Sub, minDuration, maxDuration. rewrite Day_value.
    destruct (Z.ltb_spec (now - lastDone) (- 2 ^ 63));
      [| destruct (Z.ltb_spec (2 ^ 63 - 1) (now - lastDone))];
      Z.quot_rem_to_equations; lia. }
  rewrite <- Q. unfold spec_decay. split; intros H.
  - revert H. cases_leb.
  - cases_leb.
Qed.

(** X1.  The top level, five plus signs, is shown exactly for a kata
    done 15 times or more whose last completion is less than four
    days old, to the nanosecond (or lies in the future). *)
Theorem mastery_top (timesDone : Z) (lastDone : Time) (w : world) :
  fst (mastery timesDone lastDone w) = 5
  <-> 15 <= timesDone /\ wall w - lastDone < 4 * Day.
Proof.
  rewrite <- no_decay_iff, mastery_eq.
  pose proof (spec_decay_range (daysAgo (Sub (wall w) lastDone))) as D.
  revert D. generalize (spec_decay (daysAgo (Sub (wall w) lastDone))).
  intros d D. unfold spec_base.
  destruct (Z.leb_spec timesDone 0); cbn [fst]; [lia |].
  split.
  - cases_leb.
  - intros [T ->]. cases_leb.
Qed.

(** X2.  The decay stops at three levels: a kata done ten times
    keeps one plus sign for ever, and one done fifteen times keeps
    two. *)
Theorem mastery_keeps (timesDone : Z) (lastDone : Time) (w : world) :
  10 <= timesDone ->
  (if 15 <=? timesDone then 2 else 1) <= fst (mastery timesDone lastDone w).
Proof.
  intros T. rewrite mastery_eq.
  pose proof (spec_decay_range (daysAgo (Sub (wall w) lastDone))) as D.
  revert D. generalize (spec_decay (daysAgo (Sub (wall w) lastDone))).
  intros d D. unfold spec_base.
  destruct (Z.leb_spec timesDone 0); cbn [fst]; [lia |].
  cases_leb.
Qed.

Lemma mastery_keeps_witness :
  10 <= 12 /\ 1 <= fst (mastery 12 zeroTime (clock_at a_day)).
Proof.
  split; [lia |].
  exact (mastery_keeps 12 zeroTime (clock_at a_day) ltac:(lia)).
Defined.

(* ================================================================= *)
(** ** Further properties: [markDone] *)

(** What [markDone] leaves behind when it returns no error. *)
Lemma markDone_ok (yaml_Marshal : list kata -> filedata + error)
      (name : string) (k : katas) (w : world) (ks : list kata) :
  disk w (filePath k) = Some (Encoded ks) ->
  fst (markDone yaml_Marshal name (mkState k w)) = Ok tt ->
  let today := Format_date (zone w) (wall w) in
  exists x data,
    find (named name) ks = Some x /\ ~ last_is today (Done x)
    /\ yaml_Marshal (mark name today ks) = inl data
    /\ write_fault w = None
    /\ snd (markDone yaml_Marshal name (mkState k w)) =
       mkState (mkKatas (filePath k) (mark name today ks))
               (log (FileWrite (filePath k) data)
                    (store (filePath k) (Some data)
                           (log ClockRead (log (FileRead (filePath k)) w)))).
Proof.
  intros D R today.
  destruct (find (named name) ks) as [x |] eqn:F.
  - pose proof (last_check today (Done x)) as L.
    destruct (_ && _) eqn:C in L.
    + pose proof (markDone_outcome yaml_Marshal name k w ks D) as O.
      cbv zeta in O. fold today in O. rewrite F, C in O.
      rewrite O in R. discriminate.
    + assert (Lx : ~ last_is today (Done x)).
      { intros N. apply L in N. discriminate. }
      rewrite (markDone_saving yaml_Marshal name k w ks x D F Lx) in R |- *.
      fold today in R |- *.
      destruct (yaml_Marshal (mark name today ks)) as [data | err];
        [| discriminate].
      destruct (write_fault w); [discriminate |].
      exists x, data. repeat split. exact Lx.
  - pose proof (markDone_outcome yaml_Marshal name k w ks D) as O.
    cbv zeta in O. rewrite F in O. rewrite O in R. discriminate.
Qed.

Lemma mark_last (name today : string) (ks : list kata) (x : kata) :
  find (named name) ks = Some x ->
  exists y, find (named name) (mark name today ks) = Some y
            /\ Done y = Done x ++ [today].
Proof.
  induction ks as [| z ks IH]; cbn [find mark]; [discriminate |].
  destruct (named name z) eqn:N.
  - intros [= ->]. exists (done_today x today). cbn [find].
    unfold named in *. cbn [done_today Name]. rewrite N. split; reflexivity.
  - intros F. cbn [find]. rewrite N. apply IH, F.
Qed.

(** X3.  A kata is marked done once a day, where the file [markDone]
    wrote decodes to the list it saved: another [markDone] of the kata
    on the file as it was left returns the error that it is already
    done, writing nothing, when the date is the same, and appends the
    new date when the date is another, the list encodes and the file
    can be written. *)
Theorem markDone_again (yaml_Marshal : list kata -> filedata + error)
        (name : string) (k k2 : katas) (w w2 : world) (ks : list kata) :
  disk w (filePath k) = Some (Encoded ks) ->
  fst (markDone yaml_Marshal name (mkState k w)) = Ok tt ->
  filePath k2 = filePath k ->
  disk w2 (filePath k)
  = disk (env (snd (markDone yaml_Marshal name (mkState k w)))) (filePath k) ->
  let today := Format_date (zone w) (wall w) in
  let today2 := Format_date (zone w2) (wall w2) in
  let saved := mark name today ks in
  yaml_Marshal saved = inl (Encoded saved) ->
  (today2 = today ->
   fst (markDone yaml_Marshal name (mkState k2 w2)) = Err (already_done name)
   /\ disk (env (snd (markDone yaml_Marshal name (mkState k2 w2)))) = disk w2
   /\ writes (env (snd (markDone yaml_Marshal name (mkState k2 w2))))
      = writes w2)
  /\ (today2 <> today ->
      forall data, yaml_Marshal (mark name today2 saved) = inl data ->
      write_fault w2 = None ->
      fst (markDone yaml_Marshal name (mkState k2 w2)) = Ok tt
      /\ disk (env (snd (markDone yaml_Marshal name (mkState k2 w2))))
              (filePath k)
         = Some data).
Proof.
  intros D R P D2 today today2 saved Y.
  destruct (markDone_ok yaml_Marshal name k w ks D R)
    as (x & data & F & _ & Y' & _ & S).
  fold today in Y', S. fold saved in Y', S.
  rewrite Y in Y'. injection Y' as <-.
  rewrite S in D2. cbn [env log store disk] in D2.
  rewrite String.eqb_refl in D2. rewrite <- P in D2.
  destruct (mark_last name today ks x F) as (y & Fy & Ey). fold saved in Fy.
  split.
  - intros E.
    pose proof (markDone_outcome yaml_Marshal name k2 w2 _ D2) as O.
    cbv zeta in O. fold today2 in O. rewrite Fy in O.
    assert (C : last_is today2 (Done y)) by (exists (Done x); congruence).
    apply last_check in C. rewrite C in O. rewrite O. repeat split.
  - intros N data2 Y2 W.
    assert (L : ~ last_is today2 (Done y)).
    { intros [earlier C]. rewrite Ey in C.
      apply app_inj_tail in C. destruct C as [_ C]. congruence. }
    rewrite (markDone_saving yaml_Marshal name k2 w2 saved y D2 Fy L).
    fold today2. rewrite Y2, W. cbn [fst snd env log store disk].
    rewrite P, String.eqb_refl. split; reflexivity.
Qed.

Lemma markDone_again_witness :
  let ks := [hello []] in
  let w := world_with ks None in
  let s1 := snd (markDone plain_Marshal "hello" (mkState home w)) in
  disk w (filePath home) = Some (Encoded ks)
  /\ fst (markDone plain_Marshal "hello" (mkState home w)) = Ok tt
  /\ plain_Marshal (mark "hello" "2024-10-04" ks)
     = inl (Encoded (mark "hello" "2024-10-04" ks))
  /\ fst (markDone plain_Marshal "hello" s1) = Err (already_done "hello").
Proof.
  intros ks w s1. split; [reflexivity |]. split; [reflexivity |].
  split; [reflexivity |].
  refine (proj1 (proj1 (markDone_again plain_Marshal "hello" home (self s1) w
                          (env s1) ks eq_refl eq_refl eq_refl eq_refl eq_refl)
                       eq_refl)).
Defined.

(** X4.  [markDone] touches no file but its own, whether it returns
    an error or not and whatever happens to its own file. *)
Theorem markDone_other_files (yaml_Marshal : list kata -> filedata + error)
        (name : string) (k : katas) (w : world) (p : string) :
  p <> filePath k ->
  disk (env (snd (markDone yaml_Marshal name (mkState k w)))) p = disk w p.
Proof.
  intros N. apply String.eqb_neq in N.
  destruct (disk w (filePath k)) as [[ks | partial] |] eqn:D.
  - pose proof (markDone_outcome yaml_Marshal name k w ks D) as O.
    cbv zeta in O. rewrite O. clear O.
    destruct (find (named name) ks) as [x |]; [| reflexivity].
    destruct (_ && _); [reflexivity |].
    rewrite save_eq. cbn [self env k_katas filePath].
    destruct (yaml_Marshal _); [| reflexivity].
    destruct (write_fault _); cbn [snd env log store disk]; rewrite N;
      reflexivity.
  - destruct (markDone_unloaded yaml_Marshal name k w) as (_ & E & _);
      [intros ks; rewrite D; discriminate | rewrite E; reflexivity].
  - destruct (markDone_unloaded yaml_Marshal name k w) as (_ & E & _);
      [intros ks; rewrite D; discriminate | rewrite E; reflexivity].
Qed.

Lemma markDone_other_files_witness :
  "/etc/passwd"%string <> filePath home
  /\ disk (env (snd (markDone plain_Marshal "hello"
                       (mkState home (world_with [hello []] None)))))
          "/etc/passwd"
     = disk (world_with [hello []] None) "/etc/passwd".
Proof.
  assert (N : "/etc/passwd"%string <> filePath home) by discriminate.
  split; [exact N |].
  exact (markDone_other_files plain_Marshal "hello" home
           (world_with [hello []] None) "/etc/passwd" N).
Defined.

Lemma mark_catalogue (name today : string) (ks : list kata) (x : kata) :
  find (named name) ks = Some x ->
  map Name (mark name today ks) = map Name ks
  /\ map URL (mark name today ks) = map URL ks
  /\ completions (mark name today ks) = completions ks + 1.
Proof.
  unfold completions, total, kata_timesDone.
  induction ks as [| z ks IH]; cbn [find mark]; [discriminate |].
  destruct (named name z) eqn:N.
  - intros _. cbn [map fold_right done_today Name URL Done].
    rewrite length_app. cbn [List.length]. repeat split. lia.
  - intros F. destruct (IH F) as (A & B & C). cbn [map fold_right].
    rewrite A, B, C. repeat split. lia.
Qed.

(** X5.  When [markDone] returns no error, the list it has saved,
    which is the list it holds and whose encoding by [yaml.Marshal]
    is now the file, has the same katas as the file had before, by
    name and by URL and in the same order, with one completion more
    in all. *)
Theorem markDone_catalogue (yaml_Marshal : list kata -> filedata + error)
        (name : string) (k : katas) (w : world) (ks : list kata) :
  disk w (filePath k) = Some (Encoded ks) ->
  fst (markDone yaml_Marshal name (mkState k w)) = Ok tt ->
  exists ks' data,
    k_katas (self (snd (markDone yaml_Marshal name (mkState k w)))) = ks'
    /\ yaml_Marshal ks' = inl data
    /\ disk (env (snd (markDone yaml_Marshal name (mkState k w)))) (filePath k)
       = Some data
    /\ map Name ks' = map Name ks
    /\ map URL ks' = map URL ks
    /\ completions ks' = completions ks + 1.
Proof.
  intros D R.
  destruct (markDone_ok yaml_Marshal name k w ks D R)
    as (x & data & F & _ & Y & _ & S).
  rewrite S. cbn [self k_katas env log store disk]. rewrite String.eqb_refl.
  eexists _, data. split; [reflexivity |]. split; [exact Y |].
  split; [reflexivity |]. apply (mark_catalogue _ _ _ x F).
Qed.

Lemma markDone_catalogue_witness :
  let ks := readme_katas in
  let w := world_with ks None in
  let s1 := snd (markDone plain_Marshal "outyet" (mkState home w)) in
  disk w (filePath home) = Some (Encoded ks)
  /\ fst (markDone plain_Marshal "outyet" (mkState home w)) = Ok tt
  /\ exists ks' data,
       k_katas (self s1) = ks'
       /\ plain_Marshal ks' = inl data
       /\ disk (env s1) (filePath home) = Some data
       /\ map Name ks' = map Name ks
       /\ map URL ks' = map URL ks
       /\ completions ks' = completions ks + 1.
Proof.
  intros ks w s1. split; [reflexivity |]. split; [reflexivity |].
  exact (markDone_catalogue plain_Marshal "outyet" home w ks eq_refl eq_refl).
Defined.

(* ================================================================= *)
(** ** Further properties: [initConfig] *)

Section InitConfig.

Variable defaultKatas : filedata.

(** [initConfig], case by case. *)
Lemma initConfig_eq (k : katas) (w : world) :
  initConfig defaultKatas (mkState k w) =
  match disk w (filePath k) with
  | Some _ => (Err (already_exists k), mkState k w)
  | None =>
      let w' := fun r => log (FileWrite (filePath k) defaultKatas)
                             (store (filePath k) r w) in
      match write_fault w with
      | None => (Ok tt, mkState k (w' (Some defaultKatas)))
      | Some r => (Err (PathError "open" (filePath k)), mkState k (w' r))
      end
  end.
Proof.
  cbv beta iota zeta delta
    [initConfig bind get_self io Stat WriteFile raise ret self env].
  destruct (disk w (filePath k)); [reflexivity |].
  destruct (write_fault w); reflexivity.
Qed.

(** X6.  [initConfig] does not overwrite: where there is a file, of
    whatever contents, it returns an error and leaves the world as it
    is. *)
Theorem initConfig_existing (k : katas) (w : world) (c : filedata) :
  disk w (filePath k) = Some c ->
  initConfig defaultKatas (mkState k w) = (Err (already_exists k), mkState k w).
Proof.
  intros D. rewrite initConfig_eq, D. reflexivity.
Qed.

(** X7.  Where there is no file and one can be written,
    [initConfig] returns no error and leaves the embedded katas in
    the file, other files as they were; and from there on
    [initConfig] is refused. *)
Theorem initConfig_fresh (k : katas) (w : world) :
  disk w (filePath k) = None -> write_fault w = None ->
  let s1 := snd (initConfig defaultKatas (mkState k w)) in
  fst (initConfig defaultKatas (mkState k w)) = Ok tt
  /\ disk (env s1) (filePath k) = Some defaultKatas
  /\ (forall p, p <> filePath k -> disk (env s1) p = disk w p)
  /\ initConfig defaultKatas s1 = (Err (already_exists k), s1).
Proof.
  intros D W. rewrite initConfig_eq, D, W.
  cbv zeta. cbn [fst snd env log store disk].
  split; [reflexivity |]. split; [rewrite String.eqb_refl; reflexivity |].
  split.
  - intros p N. apply String.eqb_neq in N. rewrite N. reflexivity.
  - rewrite initConfig_eq. cbn [log store disk].
    rewrite String.eqb_refl. reflexivity.
Qed.

End InitConfig.

Lemma initConfig_existing_witness :
  disk (world_with [] None) (filePath home) = Some (Encoded [])
  /\ initConfig (Encoded readme_katas) (mkState home (world_with [] None))
     = (Err (already_exists home), mkState home (world_with [] None)).
Proof.
  split; [reflexivity |].
  exact (initConfig_existing (Encoded readme_katas) home (world_with [] None)
           (Encoded []) eq_refl).
Defined.

Lemma initConfig_fresh_witness :
  disk (clock_at a_day) (filePath home) = None
  /\ write_fault (clock_at a_day) = None
  /\ fst (initConfig (Encoded readme_katas) (mkState home (clock_at a_day)))
     = Ok tt.
Proof.
  split; [reflexivity |]. split; [reflexivity |].
  exact (proj1 (initConfig_fresh (Encoded readme_katas) home (clock_at a_day)
                  eq_refl eq_refl)).
Defined.

(* ================================================================= *)
(** ** Further properties: [LastDone.String] *)

Lemma Sprint_d_neg (n : Z) :
  n < 0 -> Sprint_d n = ("-" ++ Sprint_d (- n))%string.
Proof.
  intros H. unfold Sprint_d, appendInt.
  destruct (Z.ltb_spec n 0); [| lia].
  destruct (Z.ltb_spec (- n) 0); [lia |].
  rewrite Z.abs_opp. reflexivity.
Qed.

(** X8.  A last completion dated a day or more ahead of the clock is
    shown with a negative number of days. *)
Theorem LastDone_String_future (t : Time) (w : world) :
  t <> zeroTime -> wall w + Day <= t ->
  exists n, 0 < n
            /\ fst (LastDone_String t w)
               = ("-" ++ Sprint_d n ++ " days ago")%string.
Proof.
  intros Z F. unfold LastDone_String, IsZero, Since, Now.
  destruct (Z.eqb_spec t zeroTime); [contradiction |]. cbn [fst].
  assert (H : daysAgo (Sub (wall w) t) <= - 1).
  { assert (E : daysAgo (- Day) = - 1) by (vm_compute; reflexivity).
    rewrite <- E.
    apply daysAgo_le; [apply Sub_in_range | apply near_in_range |].
    - rewrite Day_value. lia.
    - unfold Sub, minDuration, maxDuration. rewrite Day_value in *. cases_leb. }
  exists (- daysAgo (Sub (wall w) t)). split; [lia |].
  rewrite Sprint_d_neg by lia.
  generalize (Sprint_d (- daysAgo (Sub (wall w) t))). reflexivity.
Qed.

Lemma LastDone_String_future_witness :
  a_day + 3 * Day <> zeroTime /\ wall (clock_at a_day) + Day <= a_day + 3 * Day
  /\ fst (LastDone_String (a_day + 3 * Day) (clock_at a_day))
     = "-3 days ago"%string.
Proof.
  split; [discriminate |]. split; [vm_compute; discriminate |].
  destruct (LastDone_String_future (a_day + 3 * Day) (clock_at a_day))
    as (n & _ & _); [discriminate | vm_compute; discriminate |].
  vm_compute. reflexivity.
Defined.

(* ================================================================= *)
(** ** Further properties: [print] *)

Lemma Mastery_String_level (m : Mastery) :
  0 <= m <= 5 -> Z.of_nat (String.length (Mastery_String m)) = m.
Proof.
  intros H.
  assert (C : m = 0 \/ m = 1 \/ m = 2 \/ m = 3 \/ m = 4 \/ m = 5) by lia.
  destruct C as [-> | [-> | [-> | [-> | [-> | ->]]]]]; reflexivity.
Qed.

Lemma shown_level_cells (a b c e : string) (m : Mastery) :
  0 <= m <= 5 -> shown_level [a; b; c; Mastery_String m; e] = m.
Proof. intros H. unfold shown_level. cbn [nth]. apply Mastery_String_level, H. Qed.

Lemma latest_max (ts : list Time) (a b : Time) :
  latest ts (Z.max a b) = Z.max b (latest ts a).
Proof.
  unfold latest. induction ts as [| t ts IH]; cbn [fold_right] in *; lia.
Qed.

Lemma latest_app (ts ts' : list Time) (a : Time) :
  latest (ts ++ ts') a = latest ts' (latest ts a).
Proof.
  revert a. induction ts as [| t ts IH]; intros a; [reflexivity |].
  cbn [app]. change (latest (t :: ts ++ ts') a)
    with (Z.max t (latest (ts ++ ts') a)).
  rewrite IH. change (latest (t :: ts) a) with (Z.max t (latest ts a)).
  rewrite (Z.max_comm t (latest ts a)), latest_max. reflexivity.
Qed.

Lemma latest_Permutation (ts ts' : list Time) (a : Time) :
  Permutation ts ts' -> latest ts a = latest ts' a.
Proof.
  unfold latest. intros P. induction P; cbn [fold_right] in *; lia.
Qed.

Lemma parsed_none (Parse : string -> Time + error) (done : list string) :
  (forall d, In d done -> exists err, Parse d = inr err) ->
  parsed Parse done = [].
Proof.
  induction done as [| d done IH]; intros H; [reflexivity |].
  cbn [parsed flat_map]. destruct (H d (or_introl eq_refl)) as [err ->].
  apply IH. intros d' I. apply H. right. exact I.
Qed.

Section Print.

Variable Parse : string -> Time + error.
Variable elapse : world -> world.

Lemma later_trans (w1 w2 w3 : world) :
  later elapse w1 w2 -> later elapse w2 w3 -> later elapse w1 w3.
Proof. intros A B. induction B; [exact A | | |]; constructor; assumption. Qed.

Lemma later_mastery (n : Z) (ld : Time) (w : world) :
  later elapse w (snd (mastery n ld w)).
Proof.
  rewrite mastery_eq. destruct (n <=? 0); cbn [snd]; repeat constructor.
Qed.

Lemma later_LastDone_String (ld : Time) (w : world) :
  later elapse w (snd (LastDone_String ld w)).
Proof.
  unfold LastDone_String, Since, Now.
  destruct (IsZero ld); cbn [snd]; repeat constructor.
Qed.

(** Where the clock is never turned back, it reads no less in a
    later world. *)
Lemma later_wall (w w' : world) :
  (forall w0, wall w0 <= wall (elapse w0)) ->
  later elapse w w' -> wall w <= wall w'.
Proof.
  intros Mo L. induction L as [| w' L IH | e w' L IH | p c w' L IH];
    [lia | specialize (Mo w'); lia | exact IH | exact IH].
Qed.

Lemma shows_after_shows (w : world) (doneKata : string) (x : kata) (r : row) :
  shows_after Parse elapse w doneKata x r -> shows Parse doneKata x r.
Proof. intros (w1 & w2 & _ & _ & E). exists w1, w2. exact E. Qed.

Lemma shows_after_earlier (w0 w : world) (doneKata : string) (x : kata)
      (r : row) :
  later elapse w0 w ->
  shows_after Parse elapse w doneKata x r ->
  shows_after Parse elapse w0 doneKata x r.
Proof.
  intros L (w1 & w2 & L1 & L2 & E). exists w1, w2.
  split; [exact (later_trans _ _ _ L L1) | split; assumption].
Qed.

(** The row of a kata without a date that parses, read fifteen days
    or more past the zero Time. *)
Lemma undated_row (w : world) (doneKata : string) (x : kata) (r : row) :
  (forall w0, wall w0 <= wall (elapse w0)) -> 15 * Day <= wall w ->
  shows_after Parse elapse w doneKata x r ->
  undated Parse x -> r = never_row doneKata x.
Proof.
  intros Mo C (w1 & w2 & L1 & _ & ->) U.
  pose proof (later_wall w w1 Mo L1) as C1.
  unfold never_row, kata_lastDone. rewrite (parsed_none Parse _ U).
  cbn [latest fold_right]. f_equal. f_equal.
  change (fst (LastDone_String zeroTime w2)) with "never"%string.
  f_equal. f_equal. f_equal. rewrite mastery_eq.
  assert (D : spec_decay (daysAgo (Sub (wall w1) zeroTime)) = 3).
  { rewrite spec_decay_daysAgo by apply Sub_in_range.
    assert (15 <= Z.quot (Sub (wall w1) zeroTime) Day).
    { unfold Sub, minDuration, maxDuration, zeroTime.
      rewrite Day_value in *. cases_leb; Z.quot_rem_to_equations; lia. }
    unfold spec_decay. cases_leb. }
  rewrite D. unfold kata_timesDone, spec_base.
  destruct (Z.leb_spec (Z.of_nat (List.length (Done x))) 0);
    cbn [fst]; [| reflexivity].
  cases_leb.
Qed.

(** The inner loop of [print]: the latest of the dates that parse,
    and a line in the log for each date that does not. *)
Lemma scan_spec (name : string) (done : list string) (lastDone late : Time) :
  scan Parse name done lastDone late =
  (latest (parsed Parse done) lastDone, latest (parsed Parse done) late,
   unparsed Parse name done).
Proof.
  revert lastDone late.
  induction done as [| d done IH]; intros lastDone late; [reflexivity |].
  cbn [scan parsed unparsed flat_map]. destruct (Parse d) as [t | err].
  - rewrite IH. unfold After. cbn [app].
    assert (M : forall a, (if a <? t then t else a) = Z.max a t)
      by (intros a; destruct (Z.ltb_spec a t); lia).
    rewrite !M, !latest_max. reflexivity.
  - rewrite IH. reflexivity.
Qed.

(** X10.  To [print] the order of the completions of a kata does not
    matter (while [markDone] looks at the final one only): the last
    completion it shows and scores is the latest date that parses. *)
Theorem scan_any_order (name : string) (done done' : list string)
        (lastDone late : Time) :
  Permutation done done' ->
  fst (scan Parse name done lastDone late)
  = fst (scan Parse name done' lastDone late).
Proof.
  intros P. rewrite !scan_spec. cbn [fst].
  assert (Q : Permutation (parsed Parse done) (parsed Parse done'))
    by (apply Permutation_flat_map, P).
  rewrite (latest_Permutation _ _ lastDone Q), (latest_Permutation _ _ late Q).
  reflexivity.
Qed.

(** One turn of the loop of [print]. *)
Lemma print_range_cons (doneKata : string) (x : kata) (rest : list kata)
      (tot : totals) (s : state) :
  print_range Parse elapse doneKata (x :: rest) tot s =
  let n := kata_timesDone x in
  let ld := kata_lastDone Parse x in
  let m := mastery n ld (elapse (env s)) in
  let a := LastDone_String ld (elapse (snd m)) in
  match print_range Parse elapse doneKata rest
          (mkTotals (totalTimesDone tot + n)
                    (latest (parsed Parse (Done x)) (latestLastDone tot))
                    (totalMastery tot + fst m))
          (mkState (self s) (snd a)) with
  | (Ok (tot', lines, logs'), s') =>
      (Ok (tot',
           [shown_name doneKata x; TimesDone_String n; fst a;
            Mastery_String (fst m); URL x] :: lines,
           (unparsed Parse (Name x) (Done x) ++ logs')%list), s')
  | (Err e, s') => (Err e, s')
  end.
Proof.
  destruct s as [k w]. cbn [print_range]. rewrite scan_spec.
  cbv beta iota zeta delta [bind wait io ret]. cbn [self env].
  fold (kata_timesDone x). fold (kata_lastDone Parse x).
  destruct (mastery (kata_timesDone x) (kata_lastDone Parse x) (elapse w))
    as [level w2].
  cbn [self env fst snd].
  destruct (LastDone_String (kata_lastDone Parse x) (elapse w2)) as [ago w4].
  cbn [self env fst snd].
  destruct (print_range Parse elapse doneKata rest _ _)
    as [[[[tot' lines] logs'] | e] s']; reflexivity.
Qed.

(** The loop of [print]: a row for each kata, in order, and the
    totals of what the rows show. *)
Lemma print_range_spec (doneKata : string) (rest : list kata) :
  forall (tot : totals) (s : state),
  exists (lines : list row) (s' : state),
    print_range Parse elapse doneKata rest tot s =
    (Ok (mkTotals (totalTimesDone tot + completions rest)
                  (latest (flat_map (fun x => parsed Parse (Done x)) rest)
                          (latestLastDone tot))
                  (totalMastery tot + total (map shown_level lines)),
         lines,
         flat_map (fun x => unparsed Parse (Name x) (Done x)) rest), s')
    /\ Forall2 (shows_after Parse elapse (env s) doneKata) rest lines
    /\ Forall (fun r => 0 <= shown_level r <= 5) lines
    /\ self s' = self s
    /\ later elapse (env s) (env s').
Proof.
  induction rest as [| x rest IH]; intros tot s.
  - exists [], s. cbn [print_range flat_map map]. unfold completions, total.
    cbn [map fold_right latest]. rewrite !Z.add_0_r.
    destruct tot. repeat split; constructor.
  - rewrite print_range_cons. cbv zeta.
    set (n := kata_timesDone x). set (ld := kata_lastDone Parse x).
    set (m := mastery n ld (elapse (env s))).
    set (a := LastDone_String ld (elapse (snd m))).
    destruct (IH (mkTotals (totalTimesDone tot + n)
                    (latest (parsed Parse (Done x)) (latestLastDone tot))
                    (totalMastery tot + fst m))
                 (mkState (self s) (snd a)))
      as (lines & s' & E & F & R & S & La).
    cbn [env] in F, La. rewrite E. clear E IH.
    assert (L1 : later elapse (env s) (elapse (env s)))
      by (repeat constructor).
    assert (L2 : later elapse (elapse (env s)) (elapse (snd m)))
      by (constructor; apply later_mastery).
    assert (L3 : later elapse (env s) (snd a)).
    { apply (later_trans _ _ _ L1), (later_trans _ _ _ L2).
      apply later_LastDone_String. }
    set (r := [shown_name doneKata x; TimesDone_String n; fst a;
               Mastery_String (fst m); URL x]).
    exists (r :: lines), s'.
    assert (L : shown_level r = fst m).
    { apply shown_level_cells, level_range. }
    assert (C : completions (x :: rest) = n + completions rest)
      by reflexivity.
    assert (T : total (map shown_level (r :: lines))
                = fst m + total (map shown_level lines)).
    { cbn [map]. unfold total. cbn [fold_right]. rewrite L. reflexivity. }
    split; [| split; [| split; [| split]]].
    + rewrite C, T, !Z.add_assoc. cbn [flat_map]. rewrite latest_app.
      reflexivity.
    + constructor.
      * exists (elapse (env s)), (elapse (snd m)).
        split; [exact L1 | split; [exact L2 | reflexivity]].
      * revert F. apply Forall2_impl. intros y r'.
        apply shows_after_earlier, L3.
    + constructor; [| exact R]. rewrite L. apply level_range.
    + exact S.
    + exact (later_trans _ _ _ L3 La).
Qed.

Lemma total_bounds (l : list row) :
  Forall (fun r => 0 <= shown_level r <= 5) l ->
  0 <= total (map shown_level l) <= 5 * Z.of_nat (List.length l).
Proof.
  unfold total. induction 1 as [| r l H F IH];
    cbn [map fold_right List.length]; lia.
Qed.

(** [print] on a file that loads. *)
Lemma print_loaded (doneKata : string) (k : katas) (w : world)
      (ks : list kata) :
  disk w (filePath k) = Some (Encoded ks) ->
  print Parse elapse doneKata (mkState k w) =
  let s0 := mkState (mkKatas (filePath k) ks) (log (FileRead (filePath k)) w) in
  if (List.length ks =? 0)%nat then (Ok silent, s0)
  else
    match print_range Parse elapse doneKata ks (mkTotals 0 zeroTime 0) s0 with
    | (Ok (tot, lines, logs), s1) =>
        let a := LastDone_String (latestLastDone tot) (elapse (env s1)) in
        (Ok (mkOutput
               ([heading; rule] ++ lines
                ++ [rule;
                    [Sprint_d (Z.of_nat (List.length ks));
                     TimesDone_String (totalTimesDone tot); fst a;
                     Mastery_String
                       (if (0 <? List.length ks)%nat
                        then Z.quot (totalMastery tot)
                                    (Z.of_nat (List.length ks))
                        else 0);
                     EmptyString]])%list
               logs),
         mkState (self s1) (snd a))
    | (Err e, s1) => (Err e, s1)
    end.
Proof.
  intros D.
  cbv beta iota zeta delta
    [print load bind get_self io ReadFile set_katas ret yaml_Unmarshal wait].
  cbn [self env]. rewrite D. cbn [self env k_katas].
  destruct (List.length ks =? 0)%nat; [reflexivity |].
  destruct (print_range Parse elapse doneKata ks _ _)
    as [[[[tot lines] logs] | e] s1]; [| reflexivity].
  cbn [self env].
  destruct (LastDone_String (latestLastDone tot) (elapse (env s1))) as [ago w'].
  reflexivity.
Qed.

(** [print] on a file that does not load. *)
Lemma print_unloaded (doneKata : string) (k : katas) (w : world) :
  (forall ks, disk w (filePath k) <> Some (Encoded ks)) ->
  failed (fst (print Parse elapse doneKata (mkState k w)))
  /\ disk (env (snd (print Parse elapse doneKata (mkState k w)))) = disk w
  /\ writes (env (snd (print Parse elapse doneKata (mkState k w)))) = writes w.
Proof.
  intros D.
  cbv beta iota zeta delta
    [print load bind get_self io ReadFile set_katas ret raise yaml_Unmarshal].
  cbn [self env].
  destruct (disk w (filePath k)) as [[ks | partial] |] eqn:E.
  - destruct (D ks). reflexivity.
  - cbn. repeat split. eexists. reflexivity.
  - cbn. repeat split. eexists. reflexivity.
Qed.

(** [print] on a file of katas: the table, row by row. *)
Lemma print_spec (doneKata : string) (k : katas) (w : world)
      (ks : list kata) :
  disk w (filePath k) = Some (Encoded ks) -> ks <> [] ->
  exists (lines : list row) (w' : world),
    fst (print Parse elapse doneKata (mkState k w)) =
    Ok (mkOutput
          (heading :: rule :: lines
           ++ [rule;
               [Sprint_d (Z.of_nat (List.length ks));
                TimesDone_String (completions ks);
                fst (LastDone_String
                       (latest (flat_map (fun x => parsed Parse (Done x)) ks)
                               zeroTime) w');
                Mastery_String
                  (Z.quot (total (map shown_level lines))
                          (Z.of_nat (List.length ks)));
                EmptyString]])
          (flat_map (fun x => unparsed Parse (Name x) (Done x)) ks))
    /\ Forall2 (shows_after Parse elapse w doneKata) ks lines
    /\ Forall (fun r => 0 <= shown_level r <= 5) lines.
Proof.
  intros D N. rewrite (print_loaded doneKata k w ks D). cbv zeta.
  destruct ks as [| x ks']; [contradiction |].
  change (List.length (x :: ks') =? 0)%nat with false.
  change (0 <? List.length (x :: ks'))%nat with true. cbv iota.
  destruct (print_range_spec doneKata (x :: ks') (mkTotals 0 zeroTime 0)
              (mkState (mkKatas (filePath k) (x :: ks'))
                       (log (FileRead (filePath k)) w)))
    as (lines & s1 & E & F & R & _).
  cbn [totalTimesDone latestLastDone totalMastery] in E.
  rewrite !Z.add_0_l in E. rewrite E.
  cbn [fst totalTimesDone latestLastDone totalMastery].
  exists lines, (elapse (env s1)). split; [reflexivity |].
  split; [| exact R].
  revert F. apply Forall2_impl. intros y r'.
  apply shows_after_earlier. cbn [env]. repeat constructor.
Qed.

(** X9.  In the table [print] puts out, the row of a kata none of
    whose completions parses as a date shows it as never done,
    whatever its count, with the full decay of three levels off the
    level of its count; and when no kata has a date that parses, so
    does the last row.  (The clock reads fifteen days or more past
    the zero Time and is not turned back.) *)
Theorem kata_unparsed (doneKata : string) (k : katas) (w : world)
        (ks : list kata) :
  disk w (filePath k) = Some (Encoded ks) -> ks <> [] ->
  (forall w0, wall w0 <= wall (elapse w0)) ->
  15 * Day <= wall w ->
  exists (lines : list row) (last : row) (out : output),
    fst (print Parse elapse doneKata (mkState k w)) = Ok out
    /\ table out = heading :: rule :: lines ++ [rule; last]
    /\ Forall2 (fun x r => undated Parse x -> r = never_row doneKata x)
               ks lines
    /\ (Forall (undated Parse) ks -> nth 2 last EmptyString = "never"%string).
Proof.
  intros D N Mo C.
  destruct (print_spec doneKata k w ks D N) as (lines & w' & E & F & _).
  rewrite E. clear E.
  eexists lines, _, _. split; [reflexivity |]. cbn [table app].
  split; [reflexivity |]. split.
  - revert F. apply Forall2_impl. intros x r Sh U.
    exact (undated_row w doneKata x r Mo C Sh U).
  - intros U. cbn [nth].
    assert (P : flat_map (fun x => parsed Parse (Done x)) ks = []).
    { clear - U. induction U as [| x ks Ux U IH]; [reflexivity |].
      cbn [flat_map]. rewrite (parsed_none Parse _ Ux), IH. reflexivity. }
    rewrite P. reflexivity.
Qed.

(** X11.  For a file of katas, [print] puts out the heading and a
    rule, a row for each kata in the order of the file (its name,
    marked when it is the kata just done, its count, its last
    completion and its mastery as of some reading of the clock, its
    URL), a rule, and a last row that starts with the number of katas
    and the count of all completions; and it logs the dates that do
    not parse. *)
Theorem print_table (doneKata : string) (k : katas) (w : world)
        (ks : list kata) :
  disk w (filePath k) = Some (Encoded ks) -> ks <> [] ->
  exists (lines : list row) (ago level : string),
    fst (print Parse elapse doneKata (mkState k w)) =
    Ok (mkOutput
          (heading :: rule :: lines
           ++ [rule;
               [Sprint_d (Z.of_nat (List.length ks));
                TimesDone_String (completions ks); ago; level; EmptyString]])
          (flat_map (fun x => unparsed Parse (Name x) (Done x)) ks))
    /\ Forall2 (shows Parse doneKata) ks lines.
Proof.
  intros D N.
  destruct (print_spec doneKata k w ks D N) as (lines & w' & E & F & _).
  rewrite E. eexists lines, _, _. split; [reflexivity |].
  revert F. apply Forall2_impl. intros y r'. apply shows_after_shows.
Qed.

(** X12.  The mastery in the last row is the average of the
    masteries in the rows of the katas, the fraction dropped, so a
    level from 0 to 5. *)
Theorem print_average (doneKata : string) (k : katas) (w : world)
        (ks : list kata) :
  disk w (filePath k) = Some (Encoded ks) -> ks <> [] ->
  exists (lines : list row) (last : row) (out : output),
    fst (print Parse elapse doneKata (mkState k w)) = Ok out
    /\ table out = heading :: rule :: lines ++ [rule; last]
    /\ List.length lines = List.length ks
    /\ shown_level last
       = Z.quot (total (map shown_level lines)) (Z.of_nat (List.length ks))
    /\ 0 <= shown_level last <= 5.
Proof.
  intros D N.
  destruct (print_spec doneKata k w ks D N) as (lines & w' & E & F & R).
  rewrite E. clear E.
  pose proof (Forall2_length F) as Len.
  pose proof (total_bounds lines R) as B. rewrite <- Len in B.
  assert (Hn : 0 < Z.of_nat (List.length ks)).
  { destruct ks; [contradiction | cbn [List.length]; lia]. }
  assert (A : 0 <= Z.quot (total (map shown_level lines))
                          (Z.of_nat (List.length ks)) <= 5).
  { revert B Hn. generalize (total (map shown_level lines)).
    generalize (Z.of_nat (List.length ks)). intros n t B Hn.
    Z.quot_rem_to_equations. nia. }
  eexists lines, _, _. split; [reflexivity |]. cbn [table app].
  split; [reflexivity |]. split; [symmetry; exact Len |].
  rewrite shown_level_cells by exact A. split; [reflexivity | exact A].
Qed.

(** X13.  For a file without katas [print] puts out nothing, not
    even the heading, and returns no error; for a file of [n] katas
    it puts out [n + 4] rows. *)
Theorem print_size (doneKata : string) (k : katas) (w : world)
        (ks : list kata) :
  disk w (filePath k) = Some (Encoded ks) ->
  exists out,
    fst (print Parse elapse doneKata (mkState k w)) = Ok out
    /\ List.length (table out)
       = match ks with
         | [] => 0%nat
         | _ :: _ => (List.length ks + 4)%nat
         end.
Proof.
  intros D. destruct ks as [| x ks'].
  - rewrite (print_loaded doneKata k w [] D). exists silent.
    split; reflexivity.
  - destruct (print_spec doneKata k w (x :: ks') D ltac:(discriminate))
      as (lines & w' & E & F & _).
    rewrite E. eexists. split; [reflexivity |].
    cbn [table List.length]. rewrite length_app, <- (Forall2_length F).
    cbn [List.length]. lia.
Qed.

(** The loop of [print] writes no file. *)
Lemma print_range_frame (doneKata : string) (rest : list kata) :
  (forall w, disk (elapse w) = disk w /\ writes (elapse w) = writes w) ->
  forall (tot : totals) (s : state),
    disk (env (snd (print_range Parse elapse doneKata rest tot s)))
    = disk (env s)
    /\ writes (env (snd (print_range Parse elapse doneKata rest tot s)))
       = writes (env s).
Proof.
  intros Fr.
  assert (Ma : forall n ld w0, disk (snd (mastery n ld w0)) = disk w0
                               /\ writes (snd (mastery n ld w0)) = writes w0).
  { intros n ld w0. rewrite mastery_eq.
    destruct (n <=? 0); split; reflexivity. }
  assert (La : forall ld w0, disk (snd (LastDone_String ld w0)) = disk w0
                             /\ writes (snd (LastDone_String ld w0)) = writes w0).
  { intros ld w0. unfold LastDone_String, Since, Now.
    destruct (IsZero ld); split; reflexivity. }
  induction rest as [| x rest IH]; intros tot s; [split; reflexivity |].
  rewrite print_range_cons. cbv zeta.
  match goal with
  | |- context [print_range Parse elapse doneKata rest ?t ?s0] =>
      specialize (IH t s0);
      destruct (print_range Parse elapse doneKata rest t s0)
        as [[[[tot' lines] logs'] | e] s']
  end; cbn [snd env] in *;
  destruct IH as [I1 I2]; rewrite I1, I2;
  destruct (La (kata_lastDone Parse x)
               (elapse (snd (mastery (kata_timesDone x) (kata_lastDone Parse x)
                                     (elapse (env s)))))) as [L1 L2];
  rewrite L1, L2;
  destruct (Fr (snd (mastery (kata_timesDone x) (kata_lastDone Parse x)
                             (elapse (env s))))) as [F1 F2];
  rewrite F1, F2;
  destruct (Ma (kata_timesDone x) (kata_lastDone Parse x) (elapse (env s)))
    as [M1 M2];
  rewrite M1, M2; apply Fr.
Qed.

(** [print] leaves the files and the count of writes as they are. *)
Lemma print_frame (doneKata : string) (k : katas) (w : world) :
  (forall w0, disk (elapse w0) = disk w0 /\ writes (elapse w0) = writes w0) ->
  disk (env (snd (print Parse elapse doneKata (mkState k w)))) = disk w
  /\ writes (env (snd (print Parse elapse doneKata (mkState k w)))) = writes w.
Proof.
  intros Fr.
  destruct (disk w (filePath k)) as [[ks | partial] |] eqn:D.
  - rewrite (print_loaded doneKata k w ks D). cbv zeta.
    destruct (List.length ks =? 0)%nat; [split; reflexivity |].
    pose proof (print_range_frame doneKata ks Fr (mkTotals 0 zeroTime 0)
                  (mkState (mkKatas (filePath k) ks)
                           (log (FileRead (filePath k)) w))) as [P1 P2].
    destruct (print_range Parse elapse doneKata ks _ _)
      as [[[[tot lines] logs] | e] s1]; cbn [snd env] in *;
      [| rewrite P1, P2; split; reflexivity].
    unfold LastDone_String, Since, Now.
    destruct (Fr (env s1)) as [F1 F2].
    destruct (IsZero (latestLastDone tot)); cbn [snd env log disk];
      unfold writes in *; cbn [trace log filter is_write] in *;
      rewrite F1, F2, P1, P2; split; reflexivity.
  - destruct (print_unloaded doneKata k w) as (_ & E1 & E2);
      [intros ks; rewrite D; discriminate | split; assumption].
  - destruct (print_unloaded doneKata k w) as (_ & E1 & E2);
      [intros ks; rewrite D; discriminate | split; assumption].
Qed.

(** X14.  [print] writes no file, whatever it finds and however the
    clock moves while it runs. *)
Theorem print_reads_only (doneKata : string) (k : katas) (w : world) :
  (forall w0, disk (elapse w0) = disk w0 /\ writes (elapse w0) = writes w0) ->
  disk (env (snd (print Parse elapse doneKata (mkState k w)))) = disk w
  /\ writes (env (snd (print Parse elapse doneKata (mkState k w)))) = writes w.
Proof.
  intros Fr. destruct (print_frame doneKata k w Fr) as [D W].
  split; [exact D | exact W].
Qed.

(** X15.  [main] without flags never ends in [log.Fatal] and writes
    no file; where the file does not load it puts out nothing. *)
Theorem main_list (defaultKatas : filedata)
        (yaml_Marshal : list kata -> filedata + error)
        (path : string) (w : world) :
  (forall w0, disk (elapse w0) = disk w0 /\ writes (elapse w0) = writes w0) ->
  exists out,
    fst (main defaultKatas yaml_Marshal Parse elapse path false EmptyString w)
    = Returned out
    /\ disk (snd (main defaultKatas yaml_Marshal Parse elapse path false
                       EmptyString w))
       = disk w
    /\ writes (snd (main defaultKatas yaml_Marshal Parse elapse path false
                         EmptyString w))
       = writes w
    /\ ((forall ks, disk w path <> Some (Encoded ks)) -> out = silent).
Proof.
  intros Fr. unfold main. cbn [String.eqb negb].
  pose proof (print_frame EmptyString (newKatas path) w Fr) as [P1 P2].
  destruct (print Parse elapse EmptyString (mkState (newKatas path) w))
    as [[out | e] s'] eqn:E; cbn [fst snd] in *.
  - exists out. repeat split; try assumption.
    intros U.
    destruct (print_unloaded EmptyString (newKatas path) w U) as ([e F] & _).
    rewrite E in F. discriminate.
  - exists silent. repeat split; assumption.
Qed.

(** [main] with [-done name], once [markDone] has saved: what is left
    is [print] on the file as written. *)
Lemma main_marked (defaultKatas : filedata)
      (yaml_Marshal : list kata -> filedata + error)
      (name path : string) (w : world) (ks : list kata) (x : kata)
      (data : filedata) :
  name <> EmptyString ->
  disk w path = Some (Encoded ks) ->
  find (named name) ks = Some x ->
  write_fault w = None ->
  let today := Format_date (zone w) (wall w) in
  ~ last_is today (Done x) ->
  yaml_Marshal (mark name today ks) = inl data ->
  let w1 := log (FileWrite path data)
                (store path (Some data)
                       (log ClockRead (log (FileRead path) w))) in
  let printed :=
    print Parse elapse name (mkState (mkKatas path (mark name today ks)) w1) in
  main defaultKatas yaml_Marshal Parse elapse path false name w =
  match printed with
  | (Ok out, s') => (Returned out, env s')
  | (Err _, s') => (Returned silent, env s')
  end
  /\ disk w1 path = Some data
  /\ later elapse w w1.
Proof.
  intros N D F W today L Y w1 printed. unfold main.
  apply String.eqb_neq in N. rewrite N. cbn [negb].
  change path with (filePath (newKatas path)) in D.
  rewrite (markDone_saving yaml_Marshal name (newKatas path) w ks x D F L).
  fold today. rewrite Y, W. cbn [newKatas filePath].
  split; [reflexivity |]. split.
  - unfold w1. cbn [log store disk]. rewrite String.eqb_refl. reflexivity.
  - unfold w1. repeat constructor.
Qed.

(** X16.  [main] with [-done name], when [markDone] returns no error
    and the file it wrote decodes to the list it saved, puts out the
    table of that list: the katas with today's date appended to the
    completions of the first kata called [name], each row as of
    readings of the clock later in the run; the row of that kata is
    marked and counts one completion more than before, as does the
    last row. *)
Theorem main_done (defaultKatas : filedata)
        (yaml_Marshal : list kata -> filedata + error)
        (name path : string) (w : world) (ks : list kata) (x : kata) :
  name <> EmptyString ->
  disk w path = Some (Encoded ks) ->
  find (named name) ks = Some x ->
  write_fault w = None ->
  let today := Format_date (zone w) (wall w) in
  ~ last_is today (Done x) ->
  yaml_Marshal (mark name today ks) = inl (Encoded (mark name today ks)) ->
  exists (lines : list row) (ago level : string) (rest : row),
    fst (main defaultKatas yaml_Marshal Parse elapse path false name w) =
    Returned
      (mkOutput
         (heading :: rule :: lines
          ++ [rule;
              [Sprint_d (Z.of_nat (List.length ks));
               TimesDone_String (completions ks + 1); ago; level;
               EmptyString]])
         (flat_map (fun y => unparsed Parse (Name y) (Done y))
                   (mark name today ks)))
    /\ Forall2 (shows_after Parse elapse w name) (mark name today ks) lines
    /\ In (("> " ++ name)%string
           :: TimesDone_String (kata_timesDone x + 1) :: rest) lines.
Proof.
  intros N D F W today L Y.
  destruct (main_marked defaultKatas yaml_Marshal name path w ks x _
              N D F W L Y) as (M & D1 & La).
  fold today in M, D1, La. rewrite M. clear M.
  destruct (find_named_split name ks x F) as (l1 & l2 & E & Hx & Hl).
  destruct (mark_catalogue name today ks x F) as (_ & _ & Co).
  assert (Len : List.length (mark name today ks) = List.length ks).
  { rewrite <- (length_map Name), <- (length_map Name ks).
    f_equal. apply (mark_catalogue name today ks x F). }
  match goal with
  | |- context [print Parse elapse name (mkState ?k1 ?w1)] =>
      destruct (print_spec name k1 w1 (mark name today ks)) as
        (lines & w' & P & Sh & _);
      [exact D1
      | rewrite E, (mark_split name today l1 x l2 Hx Hl);
        intros A; apply (f_equal (@List.length kata)) in A;
        rewrite length_app in A; cbn [List.length] in A; lia
      | ]
  end.
  destruct (print Parse elapse name _) as [r s2]. cbn [fst] in P. subst r.
  rewrite Len, Co. cbn [fst].
  assert (R : exists rest,
             In (("> " ++ name)%string
                 :: TimesDone_String (kata_timesDone x + 1) :: rest) lines).
  { rewrite E, (mark_split name today l1 x l2 Hx Hl) in Sh.
    apply Forall2_app_inv_l in Sh.
    destruct Sh as (r1 & r2 & _ & Sh & ->).
    destruct r2 as [| r r3]; [inversion Sh |].
    apply Forall2_cons_iff in Sh. destruct Sh as [Shx _].
    destruct Shx as (w1 & w2 & _ & _ & ->). eexists.
    apply in_or_app. right. left.
    unfold shown_name, kata_timesDone, done_today. cbn [Name Done URL].
    rewrite Hx, String.eqb_refl, length_app. cbn [List.length].
    rewrite Nat.add_1_r, Nat2Z.inj_succ. unfold Z.succ. reflexivity. }
  destruct R as [rest R].
  eexists lines, _, _, rest. split; [reflexivity |]. split; [| exact R].
  revert Sh. apply Forall2_impl. intros y r'.
  apply shows_after_earlier, La.
Qed.

(** X17.  [main] with [-done name], when [markDone] returns no error
    but the file it wrote does not decode: [print] fails to load it,
    [main] drops that error, puts out nothing and returns as if all
    was well; the file stays as written. *)
Theorem main_done_unreadable (defaultKatas : filedata)
        (yaml_Marshal : list kata -> filedata + error)
        (name path : string) (w : world) (ks partial : list kata) (x : kata) :
  name <> EmptyString ->
  disk w path = Some (Encoded ks) ->
  find (named name) ks = Some x ->
  write_fault w = None ->
  let today := Format_date (zone w) (wall w) in
  ~ last_is today (Done x) ->
  yaml_Marshal (mark name today ks) = inl (Malformed partial) ->
  fst (markDone yaml_Marshal name (mkState (newKatas path) w)) = Ok tt
  /\ fst (main defaultKatas yaml_Marshal Parse elapse path false name w)
     = Returned silent
  /\ disk (snd (main defaultKatas yaml_Marshal Parse elapse path false name w))
          path
     = Some (Malformed partial).
Proof.
  intros N D F W today L Y. split.
  - change path with (filePath (newKatas path)) in D.
    rewrite (markDone_saving yaml_Marshal name (newKatas path) w ks x D F L).
    fold today. rewrite Y, W. reflexivity.
  - destruct (main_marked defaultKatas yaml_Marshal name path w ks x _
                N D F W L Y) as (M & D1 & _).
    fold today in M, D1. rewrite M. clear M.
    match goal with
    | |- context [print Parse elapse name (mkState ?k1 ?w1)] =>
        destruct (print_unloaded name k1 w1) as ([e Fa] & Di & _);
        [intros ks'; cbn [filePath]; rewrite D1; discriminate |];
        destruct (print Parse elapse name (mkState k1 w1)) as [r s2]
    end.
    cbn [fst snd] in *. subst r. cbn [fst snd].
    split; [reflexivity |]. rewrite Di. exact D1.
Qed.

End Print.

Lemma scan_any_order_witness :
  Permutation ["2024-10-03"; "2024-09-30"]%string
              ["2024-09-30"; "2024-10-03"]%string
  /\ fst (scan parse_date "hello" ["2024-10-03"; "2024-09-30"]%string
               zeroTime zeroTime)
     = fst (scan parse_date "hello" ["2024-09-30"; "2024-10-03"]%string
                 zeroTime zeroTime).
Proof.
  assert (P : Permutation ["2024-10-03"; "2024-09-30"]%string
                          ["2024-09-30"; "2024-10-03"]%string)
    by apply perm_swap.
  split; [exact P |].
  exact (scan_any_order parse_date "hello" _ _ zeroTime zeroTime P).
Defined.

Lemma tick_frame (w0 : world) :
  disk (tick w0) = disk w0 /\ writes (tick w0) = writes w0.
Proof. split; reflexivity. Qed.

(** A file with two katas, one done twice, with a date that does not
    parse. *)
Lemma print_table_witness :
  let ks := [hello ["2024-10-01"; "yesterday"]%string;
             mkKata "outyet" "https://example.org/outyet" []] in
  let w := world_with ks None in
  disk w (filePath home) = Some (Encoded ks) /\ ks <> []
  /\ exists lines,
       Forall2 (shows parse_date "hello") ks lines
       /\ List.length lines = 2%nat.
Proof.
  intros ks w. split; [reflexivity |]. split; [discriminate |].
  destruct (print_table parse_date tick "hello" home w ks eq_refl
              ltac:(discriminate)) as (lines & _ & _ & _ & F).
  exists lines. split; [exact F |]. symmetry. exact (Forall2_length F).
Defined.

Lemma print_average_witness :
  let ks := readme_katas in
  let w := world_with ks None in
  disk w (filePath home) = Some (Encoded ks) /\ ks <> []
  /\ exists (lines : list row) (last : row) (out : output),
       fst (print parse_date tick EmptyString (mkState home w)) = Ok out
       /\ table out = heading :: rule :: lines ++ [rule; last]
       /\ List.length lines = List.length ks
       /\ shown_level last
          = Z.quot (total (map shown_level lines)) (Z.of_nat (List.length ks))
       /\ 0 <= shown_level last <= 5.
Proof.
  intros ks w. split; [reflexivity |]. split; [discriminate |].
  exact (print_average parse_date tick EmptyString home w ks eq_refl
           ltac:(discriminate)).
Defined.

Lemma print_size_witness :
  let w := world_with readme_katas None in
  disk w (filePath home) = Some (Encoded readme_katas)
  /\ exists out,
       fst (print parse_date tick EmptyString (mkState home w)) = Ok out
       /\ List.length (table out) = 7%nat.
Proof.
  intros w. split; [reflexivity |].
  exact (print_size parse_date tick EmptyString home w readme_katas eq_refl).
Defined.

Lemma print_reads_only_witness :
  let w := world_with readme_katas None in
  (forall w0, disk (tick w0) = disk w0 /\ writes (tick w0) = writes w0)
  /\ disk (env (snd (print parse_date tick EmptyString (mkState home w))))
     = disk w
  /\ writes (env (snd (print parse_date tick EmptyString (mkState home w))))
     = writes w.
Proof.
  intros w. split; [exact tick_frame |].
  exact (print_reads_only parse_date tick EmptyString home w tick_frame).
Defined.

Lemma tick_wall (w0 : world) : wall w0 <= wall (tick w0).
Proof. unfold tick. cbn [wall]. lia. Qed.

(** A kata with two completions, neither a date. *)
Lemma kata_unparsed_witness :
  let ks := [hello ["yesterday"; "2024-13-01"]%string] in
  let w := world_with ks None in
  disk w (filePath home) = Some (Encoded ks) /\ ks <> []
  /\ (forall w0, wall w0 <= wall (tick w0))
  /\ 15 * Day <= wall w
  /\ exists (lines : list row) (last : row) (out : output),
       fst (print parse_date tick EmptyString (mkState home w)) = Ok out
       /\ table out = heading :: rule :: lines ++ [rule; last]
       /\ Forall2 (fun x r => undated parse_date x
                              -> r = never_row EmptyString x) ks lines
       /\ (Forall (undated parse_date) ks
           -> nth 2 last EmptyString = "never"%string).
Proof.
  intros ks w.
  assert (C : 15 * Day <= wall w) by (vm_compute; discriminate).
  split; [reflexivity |]. split; [discriminate |].
  split; [exact tick_wall |]. split; [exact C |].
  exact (kata_unparsed parse_date tick EmptyString home w ks eq_refl
           ltac:(discriminate) tick_wall C).
Defined.

(** No file at all. *)
Lemma main_list_witness :
  (forall w0, disk (tick w0) = disk w0 /\ writes (tick w0) = writes w0)
  /\ fst (main (Encoded readme_katas) plain_Marshal parse_date tick
               (filePath home) false EmptyString (clock_at a_day))
     = Returned silent.
Proof.
  split; [exact tick_frame |].
  destruct (main_list parse_date tick (Encoded readme_katas) plain_Marshal
              (filePath home) (clock_at a_day) tick_frame)
    as (out & E & _ & _ & S).
  rewrite E. f_equal. apply S. discriminate.
Defined.

Lemma main_done_witness :
  let w := world_with readme_katas None in
  let saved := mark "hello" "2024-10-04" readme_katas in
  "hello"%string <> EmptyString
  /\ disk w (filePath home) = Some (Encoded readme_katas)
  /\ find (named "hello") readme_katas = Some (hello [])
  /\ write_fault w = None
  /\ ~ last_is (Format_date (zone w) (wall w)) (Done (hello []))
  /\ plain_Marshal saved = inl (Encoded saved)
  /\ exists lines rest,
       Forall2 (shows_after parse_date tick w "hello") saved lines
       /\ In ("> hello"%string :: "1x"%string :: rest) lines.
Proof.
  intros w saved.
  assert (L : ~ last_is (Format_date (zone w) (wall w)) (Done (hello []))).
  { intros [[| e earlier] N]; discriminate. }
  split; [discriminate |]. split; [reflexivity |]. split; [reflexivity |].
  split; [reflexivity |]. split; [exact L |]. split; [reflexivity |].
  destruct (main_done parse_date tick (Encoded readme_katas) plain_Marshal
              "hello" (filePath home) w readme_katas (hello [])
              ltac:(discriminate) eq_refl eq_refl eq_refl L eq_refl)
    as (lines & _ & _ & rest & _ & F & I).
  exists lines, rest. split; [exact F | exact I].
Defined.

(** A kata whose name starts with a blank, and an encoder that loses
    it. *)
Lemma main_done_unreadable_witness :
  let x := mkKata " hello" EmptyString [] in
  let w := world_with [x] None in
  " hello"%string <> EmptyString
  /\ disk w (filePath home) = Some (Encoded [x])
  /\ find (named " hello") [x] = Some x
  /\ write_fault w = None
  /\ ~ last_is (Format_date (zone w) (wall w)) (Done x)
  /\ blank_Marshal (mark " hello" (Format_date (zone w) (wall w)) [x])
     = inl (Malformed [])
  /\ fst (main (Encoded readme_katas) blank_Marshal parse_date tick
               (filePath home) false " hello" w)
     = Returned silent.
Proof.
  intros x w.
  assert (L : ~ last_is (Format_date (zone w) (wall w)) (Done x)).
  { intros [[| e earlier] N]; discriminate. }
  split; [discriminate |]. split; [reflexivity |]. split; [reflexivity |].
  split; [reflexivity |]. split; [exact L |]. split; [reflexivity |].
  exact (proj1 (proj2
           (main_done_unreadable parse_date tick (Encoded readme_katas)
              blank_Marshal " hello" (filePath home) w [x] [] x
              ltac:(discriminate) eq_refl eq_refl eq_refl L eq_refl))).
Defined.
